(** * sql-gapi: the natural-language-to-SQL pipeline of [main.py]

    A shallow embedding of the three pipeline functions of [main.py]
    ([get_db_schema], [get_generated_sql], [execute_query]), of
    [display_results] and of [main], together with the properties the
    specification states about them.

    Python values are modelled as follows.
    - A [str] is the list of its Unicode code points.
    - An exception is the instance of [Exception] that was raised; only its
      [str(e)] is ever observed by the program.
    - A computation is a function from the program state to an outcome
      (a returned value or a raised exception) and the next state.  The state
      survives a raised exception, as the effects of a Python [try] block do.
    - The database server, the model provider and the user are the [World]:
      the answers they give to the requests the program sends. *)

From Stdlib Require Import List NArith Arith Bool String Ascii Lia DecimalString.
Import ListNotations.
Open Scope list_scope.

(* ===================================================================== *)
(** ** Python strings *)
(* ===================================================================== *)

Module Py.

(** A Python [str]: its code points, in order. *)
Definition str := list N.

(** An ASCII literal of the source as a [str]. *)
Definition lit (s : string) : str := map N_of_ascii (list_ascii_of_string s).

(** The escape sequence [\n]. *)
Definition nl : str := [10%N].

(** [sep.join(xs)] *)
Fixpoint join (sep : str) (xs : list str) : str :=
  match xs with
  | [] => []
  | [x] => x
  | x :: rest => x ++ sep ++ join sep rest
  end.

(** [s.startswith(p)] *)
Fixpoint startswith (s p : str) : bool :=
  match p, s with
  | [], _ => true
  | _ :: _, [] => false
  | a :: p', b :: s' => N.eqb a b && startswith s' p'
  end.

(** The code points [str.strip()] removes when called without argument:
    those for which CPython's [_PyUnicode_IsWhitespace] holds. *)
Definition isspace (c : N) : bool :=
  ((0x09 <=? c) && (c <=? 0x0D))%N
  || ((0x1C <=? c) && (c <=? 0x20))%N
  || (c =? 0x85)%N || (c =? 0xA0)%N || (c =? 0x1680)%N
  || ((0x2000 <=? c) && (c <=? 0x200A))%N
  || (c =? 0x2028)%N || (c =? 0x2029)%N || (c =? 0x202F)%N
  || (c =? 0x205F)%N || (c =? 0x3000)%N.

(** [s.lstrip()] *)
Fixpoint lstrip (s : str) : str :=
  match s with
  | [] => []
  | c :: s' => if isspace c then lstrip s' else s
  end.

(** [s.rstrip()] *)
Definition rstrip (s : str) : str := rev (lstrip (rev s)).

(** [s.strip()] *)
Definition strip (s : str) : str := lstrip (rstrip s).

(** [str(n)] for a non-negative [int]. *)
Definition str_of_nat (n : nat) : str :=
  lit (NilEmpty.string_of_uint (Nat.to_uint n)).

(** The truth value of a [str]: non-empty. *)
Definition truthy (s : str) : bool :=
  match s with [] => false | _ :: _ => true end.

End Py.

Import Py.

(* ===================================================================== *)
(** ** Exceptions, outcomes and the program state *)
(* ===================================================================== *)

(** An instance of [Exception]; [exn_str e] is [str(e)], which is also what
    an f-string renders for [{e}]. *)
Record exn := Exception { exn_str : str }.

(** How a Python call ends. *)
Inductive outcome (A : Type) : Type :=
| Return (a : A)
| Raised (e : exn).
Arguments Return {A} a.
Arguments Raised {A} e.

(** A result row of a cursor: a tuple of text cells. *)
Definition row := list str.

(** A [pandas.DataFrame]: its column labels and its rows. *)
Record DataFrame := { df_columns : list str; df_rows : list row }.

(** A dynamically typed second component of the pair [execute_query] returns
    and [display_results] receives. *)
Inductive value :=
| Frame (df : DataFrame)
| Text (s : str).

(** [len(v)] *)
Definition len (v : value) : nat :=
  match v with
  | Frame df => List.length (df_rows df)
  | Text s => List.length s
  end.

(** The response object of [model.generate_content]; reading [.text] can
    itself raise (a blocked or empty candidate). *)
Record Response := { text : outcome str }.

(** Calls into Streamlit, recorded with the arguments that matter. *)
Inductive st_call :=
| st_set_page_config
| st_title (body : str)
| st_header (body : str)
| st_markdown (body : str)
| st_caption (body : str)
| st_text_area (label : str)
| st_columns
| st_button (label : str)
| st_checkbox (label : str)
| st_spinner (msg : str)
| st_expander (label : str)
| st_code (body : str) (language : option str)
| st_info (body : str)
| st_success (body : str)
| st_error (body : value)
| st_dataframe (data : value)
| st_download_button (data : value).

(** What the program does to the outside, in the order it does it.  The three
    [Call_] events mark the entry into a pipeline function. *)
Inductive event :=
| Call_get_db_schema
| Call_get_generated_sql (natural_language_query : str)
| Call_execute_query (sql_query : str)
| Connect (conn : nat)
| ConnectFailed
| CursorExecute (conn : nat) (sql : str)
| ReadSqlQuery (conn : nat) (sql : str)
| Close (conn : nat)
| GenerateContent (prompt : str)
| LogError (msg : str)
| St (c : st_call).

(** The program state: the events so far, the connections that are open, the
    identifier the next connection gets, and the rows the cursor holds after
    its last [execute]. *)
Record state := {
  trace : list event;
  next_conn : nat;
  open_conns : list nat;
  fetched : list row
}.

Definition initial_state : state :=
  {| trace := []; next_conn := 0; open_conns := []; fetched := [] |}.

(** The outside world during one run: what the database, the model provider
    and the user answer. *)
Record World := {
  (** [psycopg2.connect] with the configured parameters: [None] when the connection is
      established, the exception otherwise. *)
  db_connect : option exn;
  (** [cursor.execute(sql)]: the rows the statement yields, or the error. *)
  db_execute : str -> outcome (list row);
  (** [pd.read_sql_query(sql, conn)] *)
  db_read_sql : str -> outcome DataFrame;
  (** [conn.close()] *)
  db_close : option exn;
  (** Whether the module-level [genai.GenerativeModel(...)] succeeded, that
      is, whether the global [model] is bound. *)
  model_configured : bool;
  (** [model.generate_content(prompt)] *)
  model_generate : str -> outcome Response;
  (** The widgets' values: the question, the button, the check box. *)
  ui_query : str;
  ui_execute_button : bool;
  ui_show_sql : bool
}.

(* ===================================================================== *)
(** ** The monad of Python computations *)
(* ===================================================================== *)

Definition M (A : Type) : Type := state -> outcome A * state.

Definition ret {A} (a : A) : M A := fun s => (Return a, s).

Definition raise {A} (e : exn) : M A := fun s => (Raised e, s).

Definition bind {A B} (m : M A) (k : A -> M B) : M B :=
  fun s =>
    match m s with
    | (Return a, s') => k a s'
    | (Raised e, s') => (Raised e, s')
    end.

(** [try: m except Exception as e: h e] *)
Definition try_except {A} (m : M A) (h : exn -> M A) : M A :=
  fun s =>
    match m s with
    | (Return a, s') => (Return a, s')
    | (Raised e, s') => h e s'
    end.

Declare Scope py_scope.
Delimit Scope py_scope with py.
Notation "x <- m ;; k" := (bind m (fun x => k))
  (at level 100, m at next level, right associativity) : py_scope.
Notation "m ;; k" := (bind m (fun _ => k))
  (at level 100, right associativity) : py_scope.
Notation "'try' m 'except' e => h" := (try_except m (fun e => h))
  (at level 100, e name, m at level 200, h at level 200) : py_scope.
Open Scope py_scope.

(** [for x in xs: acc = body x acc], the loop variable state [acc] threaded. *)
Fixpoint for_in {A S} (xs : list A) (body : A -> S -> M S) (acc : S) : M S :=
  match xs with
  | [] => ret acc
  | x :: rest => acc' <- body x acc ;; for_in rest body acc'
  end.

(** [[f x for x in xs]] *)
Fixpoint comprehension {A B} (f : A -> M B) (xs : list A) : M (list B) :=
  match xs with
  | [] => ret []
  | x :: rest => y <- f x ;; ys <- comprehension f rest ;; ret (y :: ys)
  end.

(** [t[i]] on a tuple. *)
Definition getitem (t : row) (i : nat) : M str :=
  match nth_error t i with
  | Some v => ret v
  | None => raise (Exception (lit "tuple index out of range"))
  end.

(** State updates: an event is appended to the trace; a connection is opened
    or closed; the cursor takes the rows of a statement. *)
Definition record (e : event) (s : state) : state :=
  {| trace := trace s ++ [e]; next_conn := next_conn s;
     open_conns := open_conns s; fetched := fetched s |}.

Definition opened (conn : nat) (s : state) : state :=
  {| trace := trace s; next_conn := S conn;
     open_conns := conn :: open_conns s; fetched := fetched s |}.

Definition closed (conn : nat) (s : state) : state :=
  {| trace := trace s; next_conn := next_conn s;
     open_conns := remove Nat.eq_dec conn (open_conns s);
     fetched := fetched s |}.

Definition holding (rows : list row) (s : state) : state :=
  {| trace := trace s; next_conn := next_conn s;
     open_conns := open_conns s; fetched := rows |}.

Definition emit (e : event) : M unit := fun s => (Return tt, record e s).

(** [logger.error(msg)]: the logging module swallows its handlers' errors. *)
Definition logger_error (msg : str) : M unit := emit (LogError msg).

Definition st (c : st_call) : M unit := emit (St c).

(* ===================================================================== *)
(** ** The library calls of [main.py], answered by the world *)
(* ===================================================================== *)

Section Program.

Variable w : World.

(** [psycopg2.connect] with the configured parameters: a fresh connection,
    open from now on. *)
Definition psycopg2_connect : M nat :=
  fun s =>
    match db_connect w with
    | Some e => (Raised e, record ConnectFailed s)
    | None =>
        let conn := next_conn s in
        (Return conn, opened conn (record (Connect conn) s))
    end.

(** [conn.cursor()]: the cursor is identified with its connection. *)
Definition conn_cursor (conn : nat) : M nat := ret conn.

(** [cursor.execute(sql)] *)
Definition cursor_execute (cursor : nat) (sql : str) : M unit :=
  fun s =>
    match db_execute w sql with
    | Return rows => (Return tt, holding rows (record (CursorExecute cursor sql) s))
    | Raised e => (Raised e, holding [] (record (CursorExecute cursor sql) s))
    end.

(** [cursor.fetchall()]: the rows not yet fetched, all of them. *)
Definition cursor_fetchall (cursor : nat) : M (list row) :=
  fun s => (Return (fetched s), holding [] s).

(** [pd.read_sql_query(sql, conn)] *)
Definition pd_read_sql_query (sql : str) (conn : nat) : M DataFrame :=
  emit (ReadSqlQuery conn sql) ;;
  match db_read_sql w sql with
  | Return df => ret df
  | Raised e => raise e
  end.

(** [conn.close()] *)
Definition conn_close (conn : nat) : M unit :=
  fun s =>
    match db_close w with
    | Some e => (Raised e, s)
    | None => (Return tt, closed conn (record (Close conn) s))
    end.

(** [model.generate_content(prompt)]; naming the unbound global [model] is a
    [NameError], raised before anything is sent. *)
Definition model_generate_content (prompt : str) : M Response :=
  if model_configured w then
    emit (GenerateContent prompt) ;;
    match model_generate w prompt with
    | Return r => ret r
    | Raised e => raise e
    end
  else raise (Exception (lit "name 'model' is not defined")).

(** [response.text] *)
Definition response_text (r : Response) : M str :=
  match text r with
  | Return t => ret t
  | Raised e => raise e
  end.

(* ===================================================================== *)
(** ** [get_db_schema] *)
(* ===================================================================== *)

(** The text of the first catalog query. *)
Definition tables_sql : str :=
  nl ++ lit "            SELECT table_name " ++
  nl ++ lit "            FROM information_schema.tables " ++
  nl ++ lit "            WHERE table_schema = 'public'" ++
  nl ++ lit "        ".

(** The text of the catalog query for the columns of one table: the f-string
    with [table_name] spliced between the quotes. *)
Definition columns_sql (table_name : str) : str :=
  nl ++ lit "                SELECT column_name, data_type " ++
  nl ++ lit "                FROM information_schema.columns " ++
  nl ++ lit "                WHERE table_schema = 'public' AND table_name = '"
     ++ table_name ++ lit "'" ++
  nl ++ lit "            ".

(** [f"{col[0]} ({col[1]})"] *)
Definition format_column (col : row) : M str :=
  c0 <- getitem col 0 ;;
  c1 <- getitem col 1 ;;
  ret (c0 ++ lit " (" ++ c1 ++ lit ")").

(** [f"Table: {table_name}\nColumns: {', '.join(column_info)}"] *)
Definition format_table (table_name : str) (column_info : list str) : str :=
  lit "Table: " ++ table_name ++ nl ++ lit "Columns: "
  ++ join (lit ", ") column_info.

(** The body of [for table in tables:], with [schema_info] threaded. *)
Definition schema_loop_body (cursor : nat) (table : row)
    (schema_info : list str) : M (list str) :=
  table_name <- getitem table 0 ;;
  cursor_execute cursor (columns_sql table_name) ;;
  columns <- cursor_fetchall cursor ;;
  column_info <- comprehension format_column columns ;;
  ret (schema_info ++ [format_table table_name column_info]).

Definition get_db_schema : M str :=
  emit Call_get_db_schema ;;
  try (
    conn <- psycopg2_connect ;;
    cursor <- conn_cursor conn ;;
    cursor_execute cursor tables_sql ;;
    tables <- cursor_fetchall cursor ;;
    schema_info <- for_in tables (schema_loop_body cursor) [] ;;
    conn_close conn ;;
    ret (join (nl ++ nl) schema_info)
  ) except e => (
    logger_error (lit "Failed to fetch database schema: " ++ exn_str e) ;;
    ret (lit "Error fetching schema")
  ).

(* ===================================================================== *)
(** ** [get_generated_sql] *)
(* ===================================================================== *)

(** One line of the prompt template: eight spaces of indentation, the text,
    a line break. *)
Definition indent : str := lit "        ".
Definition prompt_line (s : string) : str := indent ++ lit s ++ nl.

(** The template up to [{schema}]. *)
Definition prompt_before_schema : str :=
  nl ++
  prompt_line "You are a specialized SQL query generator. Convert the following natural language question into a valid PostgreSQL SQL query." ++
  prompt_line "" ++
  prompt_line "Database Schema:" ++
  indent.

(** The template between [{schema}] and [{natural_language_query}]. *)
Definition prompt_before_question : str :=
  nl ++
  prompt_line "" ++
  prompt_line "Natural Language Question:" ++
  indent.

(** The template after [{natural_language_query}]. *)
Definition prompt_after_question : str :=
  nl ++
  prompt_line "" ++
  prompt_line "Rules:" ++
  prompt_line "1. Generate ONLY the SQL query without any additional text, explanations, or markdown." ++
  prompt_line "2. Ensure the query is valid PostgreSQL syntax." ++
  prompt_line "3. Use JOINs where appropriate when querying multiple tables." ++
  prompt_line "4. Use column names exactly as they appear in the schema." ++
  prompt_line "5. Keep the query efficient and focused on answering the specific question." ++
  prompt_line "6. When appropriate, include ORDER BY, GROUP BY, or LIMIT clauses to make the results more useful." ++
  prompt_line "7. Do not include any SQL comments in the query." ++
  prompt_line "" ++
  prompt_line "SQL Query:" ++
  indent.

(** The f-string assigned to [prompt]. *)
Definition build_prompt (schema natural_language_query : str) : str :=
  prompt_before_schema ++ schema ++
  prompt_before_question ++ natural_language_query ++
  prompt_after_question.

Definition get_generated_sql (natural_language_query : str) : M str :=
  emit (Call_get_generated_sql natural_language_query) ;;
  try (
    schema <- get_db_schema ;;
    let prompt := build_prompt schema natural_language_query in
    response <- model_generate_content prompt ;;
    t <- response_text response ;;
    ret (strip t)
  ) except e => (
    logger_error (lit "Gemini API error: " ++ exn_str e) ;;
    ret (lit "Error generating SQL: " ++ exn_str e)
  ).

(* ===================================================================== *)
(** ** [execute_query] *)
(* ===================================================================== *)

Definition execute_query (sql_query : str) : M (bool * value) :=
  emit (Call_execute_query sql_query) ;;
  try (
    conn <- psycopg2_connect ;;
    results <- pd_read_sql_query sql_query conn ;;
    conn_close conn ;;
    ret (true, Frame results)
  ) except e => (
    logger_error (lit "Database error: " ++ exn_str e) ;;
    ret (false, Text (lit "Error executing query: " ++ exn_str e))
  ).

(* ===================================================================== *)
(** ** [display_results] and [main] *)
(* ===================================================================== *)

(** [results.to_csv(index=False)].  On a frame the CSV text is built in
    memory, outside every [try]; it is kept here as the frame it renders and,
    like the Streamlit calls, is taken not to raise.  A [str] has no such
    method: naming it is an [AttributeError]. *)
Definition results_to_csv (results : value) : M value :=
  match results with
  | Frame df => ret (Frame df)
  | Text _ => raise (Exception (lit "'str' object has no attribute 'to_csv'"))
  end.

Definition display_results (success : bool) (results : value) : M unit :=
  if success then
    if len results =? 0 then
      st (st_info (lit "Query executed successfully, but returned no results."))
    else
      st (st_success (lit "Query returned " ++ str_of_nat (len results)
                      ++ lit " results.")) ;;
      st (st_dataframe results) ;;
      csv <- results_to_csv results ;;
      (* offered under query_results.csv *)
      st (st_download_button csv)
  else
    st (st_error results).

(** The body of [with st.sidebar:]. *)
Definition main_sidebar : M unit :=
  st (st_header (lit "About")) ;;
  st (st_markdown (
    nl ++
    prompt_line "This app converts your natural language questions into SQL queries and executes them against a PostgreSQL database." ++
    prompt_line "" ++
    prompt_line "**How to use:**" ++
    prompt_line "1. Type your question in the text input" ++
    prompt_line "2. Review the generated SQL (optional)" ++
    prompt_line "3. Execute the query and view results" ++
    prompt_line "" ++
    prompt_line "**Example questions:**" ++
    prompt_line "- Show me the top 5 customers by total purchase amount" ++
    prompt_line "- What were the sales figures for last month?" ++
    prompt_line "- Which products have the highest inventory levels?" ++
    indent)) ;;
  st (st_header (lit "Database Information")) ;;
  try (
    conn <- psycopg2_connect ;;
    st (st_success ([0x2705%N] ++ lit " Connected to database")) ;;
    conn_close conn ;;
    schema_info <- get_db_schema ;;
    st (st_expander (lit "View Database Schema")) ;;
    st (st_code schema_info None)
  ) except e => (
    st (st_error (Text ([0x274C%N] ++ lit " Database connection failed: "
                        ++ exn_str e)))
  ).

(** The block under [if execute_button and query:]: translate, then execute
    unless the translation starts with the error prefix. *)
Definition main_orchestrate (query : str) (show_sql : bool) : M unit :=
  st (st_spinner (lit "Generating SQL query...")) ;;
  sql_query <- get_generated_sql query ;;
  if negb (startswith sql_query (lit "Error")) then
    (if show_sql then
       st (st_expander (lit "Generated SQL Query")) ;;
       st (st_code sql_query (Some (lit "sql")))
     else ret tt) ;;
    st (st_spinner (lit "Executing query...")) ;;
    r <- execute_query sql_query ;;
    let '(success, results) := r in
    display_results success results
  else
    st (st_error (Text sql_query)).

Definition main : M unit :=
  st st_set_page_config ;;
  st (st_title (lit "Natural Language to SQL Query App")) ;;
  main_sidebar ;;
  st (st_header (lit "Ask a question about your data")) ;;
  st (st_text_area (lit "Enter your question in plain English:")) ;;
  let query := ui_query w in
  st st_columns ;;
  st (st_button (lit "Generate & Execute Query")) ;;
  let execute_button := ui_execute_button w in
  st (st_checkbox (lit "Show generated SQL query")) ;;
  let show_sql := ui_show_sql w in
  (if execute_button && truthy query then main_orchestrate query show_sql
   else ret tt) ;;
  st (st_markdown (lit "---")) ;;
  st (st_caption (lit "Powered by Streamlit, PostgreSQL, and Google Gemini")).

End Program.

Arguments lit : simpl never.
Arguments tables_sql : simpl never.
Arguments columns_sql : simpl never.
Arguments build_prompt : simpl never.
Arguments format_table : simpl never.
Arguments strip : simpl never.

(* ===================================================================== *)
(** ** Vocabulary of the specification *)
(* ===================================================================== *)

(** The events the call [m] emits when it is started in [s]. *)
Definition events_of {A} (m : M A) (s : state) : list event :=
  skipn (List.length (trace s)) (trace (snd (m s))).

(** One table of the catalog: its name and its (column, type) pairs. *)
Definition table_record : Type := str * list (str * str).

(** The rows the driver hands over for a list of tables, and for the columns
    of one table. *)
Definition table_rows (cat : list table_record) : list row :=
  map (fun t => [fst t]) cat.
Definition column_rows (cols : list (str * str)) : list row :=
  map (fun c => [fst c; snd c]) cols.

(** The database is reachable and its catalog reports the tables [cat], in
    this order, each with its columns in their order. *)
Record reports (w : World) (cat : list table_record) : Prop := {
  reports_connect : db_connect w = None;
  reports_tables : db_execute w tables_sql = Return (table_rows cat);
  reports_columns : forall name cols, In (name, cols) cat ->
      db_execute w (columns_sql name) = Return (column_rows cols);
  reports_close : db_close w = None
}.

(** The block of the schema text the specification gives for one table:
    [Table: <name>\nColumns: <col> (<type>), ...]. *)
Definition table_block (t : table_record) : str :=
  lit "Table: " ++ fst t ++ nl ++ lit "Columns: "
  ++ join (lit ", ") (map (fun c => fst c ++ lit " (" ++ snd c ++ lit ")") (snd t)).

(** A connectivity or catalog-query error while the schema is fetched. *)
Inductive schema_fetch_error (w : World) : Prop :=
| connect_error e :
    db_connect w = Some e -> schema_fetch_error w
| tables_query_error e :
    db_execute w tables_sql = Raised e -> schema_fetch_error w
| columns_query_error tables table name e :
    db_execute w tables_sql = Return tables ->
    In table tables -> nth_error table 0 = Some name ->
    db_execute w (columns_sql name) = Raised e -> schema_fetch_error w
| close_error e :
    db_close w = Some e -> schema_fetch_error w.

(** A database error, with exception [e], while [sql] is executed. *)
Inductive execution_error (w : World) (sql : str) (e : exn) : Prop :=
| exec_connect_error :
    db_connect w = Some e -> execution_error w sql e
| exec_statement_error :
    db_connect w = None -> db_read_sql w sql = Raised e ->
    execution_error w sql e
| exec_close_error df :
    db_connect w = None -> db_read_sql w sql = Return df ->
    db_close w = Some e -> execution_error w sql e.

(** A failure of the model call for [prompt], with exception [e]: the client
    was never configured, the request fails, or the response has no text. *)
Inductive model_call_error (w : World) (prompt : str) (e : exn) : Prop :=
| model_unbound :
    model_configured w = false ->
    e = Exception (lit "name 'model' is not defined") ->
    model_call_error w prompt e
| model_request_error :
    model_configured w = true -> model_generate w prompt = Raised e ->
    model_call_error w prompt e
| model_text_error r :
    model_configured w = true -> model_generate w prompt = Return r ->
    text r = Raised e -> model_call_error w prompt e.

(** The model call for [prompt] succeeds with response text [t]. *)
Definition model_answers (w : World) (prompt t : str) : Prop :=
  model_configured w = true /\
  exists r, model_generate w prompt = Return r /\ text r = Return t.

(** Two worlds hold the same database state: the same reachability and the
    same answer, rows in the same order, to every statement. *)
Record same_database (w1 w2 : World) : Prop := {
  same_connect : db_connect w1 = db_connect w2;
  same_execute : forall sql, db_execute w1 sql = db_execute w2 sql;
  same_close : db_close w1 = db_close w2
}.

(** Events by kind. *)
Definition is_call_execute_query (e : event) : bool :=
  match e with Call_execute_query _ => true | _ => false end.
Definition is_generate_content (e : event) : bool :=
  match e with GenerateContent _ => true | _ => false end.
Definition is_schema_event (e : event) : bool :=
  match e with
  | Call_get_db_schema | Connect _ | ConnectFailed | CursorExecute _ _
  | Close _ | LogError _ => true
  | _ => false
  end.
Definition is_translator_event (e : event) : bool :=
  match e with
  | Call_get_generated_sql _ | GenerateContent _ => true
  | _ => is_schema_event e
  end.

(** Every event [m] emits, from any state, satisfies [P]; the trace only
    grows. *)
Definition emits {A} (P : event -> Prop) (m : M A) : Prop :=
  forall s, exists t, trace (snd (m s)) = trace s ++ t /\ Forall P t.

(** The events of the introspector, of the translator, and all events. *)
Definition schema_event (e : event) : Prop := is_schema_event e = true.
Definition translator_event (e : event) : Prop := is_translator_event e = true.

Definition any_event (e : event) : Prop := True.

(** A computation that neither reads nor changes the state. *)
Definition pure {A} (m : M A) : Prop :=
  forall s, m s = (fst (m initial_state), s).

(** What the [except] branch of the translator leaves behind. *)
Definition translator_failed (e : exn) (s : state) : outcome str * state :=
  (Return (lit "Error generating SQL: " ++ exn_str e),
   record (LogError (lit "Gemini API error: " ++ exn_str e)) s).

(** A run of whitespace. *)
Definition whitespace (s : str) : Prop := Forall (fun c => isspace c = true) s.

(* ===================================================================== *)
(** ** Example worlds *)
(* ===================================================================== *)

(** [a == b] on strings. *)
Fixpoint str_eqb (a b : str) : bool :=
  match a, b with
  | [], [] => true
  | x :: a', y :: b' => N.eqb x y && str_eqb a' b'
  | _, _ => false
  end.

(** The schema of the end-to-end scenario: [customers(id, name)]. *)
Definition demo_catalog : list table_record :=
  [(lit "customers", [(lit "id", lit "integer"); (lit "name", lit "text")])].

Definition demo_frame : DataFrame :=
  {| df_columns := [lit "id"; lit "name"];
     df_rows := [[lit "1"; lit "Ann"]; [lit "2"; lit "Bob"]; [lit "3"; lit "Cy"]] |}.

Definition empty_frame : DataFrame :=
  {| df_columns := [lit "id"; lit "name"]; df_rows := [] |}.

Definition syntax_error : exn :=
  Exception (lit "syntax error at or near SELEC").

(** A reachable database holding [cat], which knows two statements and
    rejects the rest, and a model that answers every prompt with [answer]. *)
Definition world_of (cat : list table_record) (answer : outcome Response)
  : World :=
  {| db_connect := None;
     db_execute := fun sql =>
       if str_eqb sql tables_sql then Return (table_rows cat)
       else
         match find (fun t => str_eqb sql (columns_sql (fst t))) cat with
         | Some t => Return (column_rows (snd t))
         | None => Raised syntax_error
         end;
     db_read_sql := fun sql =>
       if str_eqb sql (lit "SELECT * FROM customers") then Return demo_frame
       else if str_eqb sql (lit "SELECT * FROM customers WHERE id < 0")
       then Return empty_frame
       else Raised syntax_error;
     db_close := None;
     model_configured := true;
     model_generate := fun _ => answer;
     ui_query := lit "List all customers";
     ui_execute_button := true;
     ui_show_sql := true |}.

(** The model answers with a statement, padded with whitespace. *)
Definition demo_world : World :=
  world_of demo_catalog
    (Return {| text := Return (lit "  SELECT * FROM customers" ++ nl) |}).

(** The same database with no table at all. *)
Definition empty_world : World :=
  world_of []
    (Return {| text := Return (lit "SELECT 1") |}).

(** The provider fails. *)
Definition failing_model_world : World :=
  world_of demo_catalog (Raised (Exception (lit "429 quota exceeded"))).

(** The model answers, in prose that starts with the word Error. *)
Definition error_answer_world : World :=
  world_of demo_catalog
    (Return {| text := Return (lit "Error codes are listed in table errors;"
                               ++ nl) |}).

(** The model answers with a statement the database rejects. *)
Definition bad_sql_world : World :=
  world_of demo_catalog (Return {| text := Return (lit "SELEC 1") |}).

(** The database cannot be reached; the model still answers. *)
Definition unreachable_world : World :=
  {| db_connect := Some (Exception (lit "could not connect to server"));
     db_execute := fun _ => Raised (Exception (lit "connection already closed"));
     db_read_sql := fun _ => Raised (Exception (lit "connection already closed"));
     db_close := None;
     model_configured := true;
     model_generate := fun _ =>
       Return {| text := Return (lit "SELECT 1") |};
     ui_query := lit "List all customers";
     ui_execute_button := true;
     ui_show_sql := true |}.

(** The first catalog query is refused after the connection is made. *)
Definition denied_world : World :=
  {| db_connect := None;
     db_execute := fun _ => Raised (Exception (lit "permission denied"));
     db_read_sql := fun _ => Raised syntax_error;
     db_close := None;
     model_configured := true;
     model_generate := fun _ =>
       Return {| text := Return (lit "SELECT 1") |};
     ui_query := lit "List all customers";
     ui_execute_button := true;
     ui_show_sql := true |}.

(* ===================================================================== *)
(** ** Further vocabulary: kinds of events, connections, user input *)
(* ===================================================================== *)

Definition is_call_get_db_schema (e : event) : bool :=
  match e with Call_get_db_schema => true | _ => false end.
Definition is_call_get_generated_sql (e : event) : bool :=
  match e with Call_get_generated_sql _ => true | _ => false end.
Definition is_read_sql_query (e : event) : bool :=
  match e with ReadSqlQuery _ _ => true | _ => false end.
Definition is_cursor_execute (e : event) : bool :=
  match e with CursorExecute _ _ => true | _ => false end.
Definition is_st (e : event) : bool :=
  match e with St _ => true | _ => false end.
Definition is_st_code (e : event) : bool :=
  match e with St (st_code _ _) => true | _ => false end.

(** The Streamlit calls that report an outcome: banners, the result table,
    the download button. *)
Definition is_display (e : event) : bool :=
  match e with
  | St (st_info _) | St (st_success _) | St (st_error _)
  | St (st_dataframe _) | St (st_download_button _) => true
  | _ => false
  end.

(** What the body of [get_db_schema] can emit, and what [execute_query] can
    emit. *)
Definition is_db_event (e : event) : bool :=
  match e with
  | Connect _ | ConnectFailed | CursorExecute _ _ | Close _ | LogError _ => true
  | _ => false
  end.
Definition db_event (e : event) : Prop := is_db_event e = true.

Definition is_executor_event (e : event) : bool :=
  match e with
  | Call_execute_query _ | Connect _ | ConnectFailed | ReadSqlQuery _ _
  | Close _ | LogError _ => true
  | _ => false
  end.
Definition executor_event (e : event) : Prop := is_executor_event e = true.

(** What [main] can emit when nothing is submitted. *)
Definition idle_event (e : event) : Prop :=
  is_schema_event e || is_st e = true.

(** A computation that returns, from every state: no exception leaves it. *)
Definition returns {A} (m : M A) : Prop :=
  forall s, exists a, fst (m s) = Return a.

(** Connection identifiers are handed out in increasing order: every open
    connection is older than the next one. *)
Definition conns_fresh (s : state) : Prop :=
  Forall (fun c => c < next_conn s) (open_conns s).

(** A computation that, started with fresh identifiers, ends with exactly the
    connections open that were open before, and hands out identifiers
    upwards only. *)
Definition balanced {A} (m : M A) : Prop :=
  forall s, conns_fresh s ->
    open_conns (snd (m s)) = open_conns s
    /\ next_conn s <= next_conn (snd (m s)).

(** The condition of [if execute_button and query:]. *)
Definition submitted (w : World) : bool :=
  ui_execute_button w && truthy (ui_query w).

(** Two worlds hold the same model: configured alike, the same answer to
    every prompt. *)
Record same_model (w1 w2 : World) : Prop := {
  same_configured : model_configured w1 = model_configured w2;
  same_generate : forall p, model_generate w1 p = model_generate w2 p
}.

(** The world [w] with other values in the widgets. *)
Definition with_ui (w : World) (query : str) (execute_button show_sql : bool)
  : World :=
  {| db_connect := db_connect w; db_execute := db_execute w;
     db_read_sql := db_read_sql w; db_close := db_close w;
     model_configured := model_configured w;
     model_generate := model_generate w;
     ui_query := query; ui_execute_button := execute_button;
     ui_show_sql := show_sql |}.

(** The world [w] with a [close] that fails. *)
Definition with_failing_close (w : World) (e : exn) : World :=
  {| db_connect := db_connect w; db_execute := db_execute w;
     db_read_sql := db_read_sql w; db_close := Some e;
     model_configured := model_configured w;
     model_generate := model_generate w;
     ui_query := ui_query w; ui_execute_button := ui_execute_button w;
     ui_show_sql := ui_show_sql w |}.

(** The world [w] in which the module-level model configuration failed. *)
Definition with_unbound_model (w : World) : World :=
  {| db_connect := db_connect w; db_execute := db_execute w;
     db_read_sql := db_read_sql w; db_close := db_close w;
     model_configured := false;
     model_generate := model_generate w;
     ui_query := ui_query w; ui_execute_button := ui_execute_button w;
     ui_show_sql := ui_show_sql w |}.

(** The model answers with whitespace only. *)
Definition blank_answer_world : World :=
  world_of demo_catalog (Return {| text := Return ([32%N; 9%N] ++ nl) |}).

(** The model answers with a statement that selects no row. *)
Definition zero_rows_world : World :=
  world_of demo_catalog
    (Return {| text := Return (lit "SELECT * FROM customers WHERE id < 0") |}).

(** Three tables; the column query for the second is refused. *)
Definition shop_tables : list row :=
  [[lit "customers"]; [lit "orders"]; [lit "items"]].

Definition broken_columns_world : World :=
  {| db_connect := None;
     db_execute := fun sql =>
       if str_eqb sql tables_sql then Return shop_tables
       else if str_eqb sql (columns_sql (lit "customers"))
       then Return [[lit "id"; lit "integer"]; [lit "name"; lit "text"]]
       else Raised (Exception (lit "permission denied for table orders"));
     db_read_sql := fun _ => Raised syntax_error;
     db_close := None;
     model_configured := true;
     model_generate := fun _ => Return {| text := Return (lit "SELECT 1") |};
     ui_query := lit "List all customers";
     ui_execute_button := true;
     ui_show_sql := true |}.

(** The text begins with the five letters the orchestration step tests
    for. *)
Definition error_prefixed (sql : str) : Prop :=
  exists rest, sql = lit "Error" ++ rest.

(** The connection probe of the sidebar goes through: the connection is made
    and closed again. *)
Definition probe_ok (w : World) : bool :=
  match db_connect w, db_close w with
  | None, None => true
  | _, _ => false
  end.

(** Whatever the translator returns for [q] and the orchestration step would
    execute, the database accepts. *)
Definition accepted (w : World) (q : str) : Prop :=
  forall s sql,
    fst (get_generated_sql w q s) = Return sql ->
    startswith sql (lit "Error") = false ->
    exists df, db_read_sql w sql = Return df.

(** How often an event of kind [f] occurs. *)
Definition count (f : event -> bool) (t : list event) : nat :=
  List.length (filter f t).

(** The three calls that open the sidebar are neither banners nor code
    panels. *)
Definition sidebar_intro_ok (e : event) : Prop :=
  is_st e = true /\ is_display e = false /\ is_st_code e = false
  /\ is_schema_event e = false.

Definition is_log_error (e : event) : bool :=
  match e with LogError _ => true | _ => false end.
Definition is_close (e : event) : bool :=
  match e with Close _ => true | _ => false end.

(** A block that starts with the letter T, as every block of the schema text
    does. *)
Definition table_headed (block : str) : Prop :=
  exists rest, block = 84%N :: rest.

(** The pairs [display_results] handles without an exception: a frame when
    the flag is set, anything when it is not. *)
Definition displayable (r : bool * value) : Prop :=
  match r with
  | (true, Text _) => False
  | _ => True
  end.

(* ===================================================================== *)
(** ** The server's reading of the catalog queries *)
(* ===================================================================== *)

(** [get_db_schema] hands the server two kinds of statement: the fixed tables
    query, and the columns query with a table name spliced between two
    quotes.  What the server does with the second depends on how it reads
    the spliced text, so the reading is written out here, following
    PostgreSQL's rules for a string constant (with
    [standard_conforming_strings] on, its default): the constant runs up to
    the next quote that is not doubled, and a doubled quote stands for one
    quote. *)

Definition is_quote (c : N) : bool := (c =? 39)%N.

(** [strip_prefix p s]: what follows [p] in [s], if [s] starts with [p]. *)
Fixpoint strip_prefix (p s : str) : option str :=
  match p, s with
  | [], _ => Some s
  | _ :: _, [] => None
  | a :: p', b :: s' => if N.eqb a b then strip_prefix p' s' else None
  end.

(** The columns query as the server knows it, up to and including the quote
    that opens the table name. *)
Definition columns_sql_head : str :=
  nl ++ lit "                SELECT column_name, data_type " ++
  nl ++ lit "                FROM information_schema.columns " ++
  nl ++ lit "                WHERE table_schema = 'public' AND table_name = '".

(** The string constant whose opening quote has just been read: its value and
    the text after its closing quote; [None] when the text ends inside the
    constant. *)
Fixpoint pg_string_constant (s : str) : option (str * str) :=
  match s with
  | [] => None
  | c :: s' =>
      if is_quote c then
        match s' with
        | c' :: s'' =>
            if is_quote c'
            then option_map (fun r => (c :: fst r, snd r))
                   (pg_string_constant s'')
            else Some ([], s')
        | [] => Some ([], [])
        end
      else option_map (fun r => (c :: fst r, snd r)) (pg_string_constant s')
  end.

(** White space between the tokens of a statement. *)
Definition pg_space (c : N) : bool :=
  (c =? 32)%N || ((9 <=? c) && (c <=? 13))%N.

(** A letter, a digit or an underscore. *)
Definition is_ident_char (c : N) : bool :=
  ((97 <=? c) && (c <=? 122))%N || ((65 <=? c) && (c <=? 90))%N
  || ((48 <=? c) && (c <=? 57))%N || (c =? 95)%N.

Fixpoint skip_ident (s : str) : str :=
  match s with
  | [] => []
  | c :: s' => if is_ident_char c then skip_ident s' else s
  end.

(** Text that starts with a word directly followed by a quote after which no
    quote comes: the quote opens a constant that the end of the statement
    cuts short, so the server rejects the statement whatever else it says. *)
Definition dangling_quote (s : str) : bool :=
  match s with
  | [] => false
  | c :: _ =>
      is_ident_char c
      && match skip_ident s with
         | [] => false
         | q :: rest => is_quote q && forallb (fun c => negb (is_quote c)) rest
         end
  end.

(** The columns the catalog [cat] holds under the table name [name]. *)
Definition columns_of (cat : list table_record) (name : str)
  : list (str * str) :=
  flat_map (fun t => if str_eqb (fst t) name then snd t else []) cat.

(** [cursor.execute] against a server whose public schema is [cat].  The
    tables query lists the tables.  A columns query whose spliced text reads
    as one string constant and nothing more lists the columns of the table of
    that name (none, if there is no such table).  A columns query whose
    constant is cut short by the end of the statement, or is followed by a
    word and a dangling quote, is rejected, with the exception [reject] gives
    for it.  Every other statement is left to [other]. *)
Definition pg_execute (cat : list table_record) (reject : str -> exn)
    (other : str -> outcome (list row)) (sql : str) : outcome (list row) :=
  if str_eqb sql tables_sql then Return (table_rows cat)
  else
    match strip_prefix columns_sql_head sql with
    | None => other sql
    | Some spliced =>
        match pg_string_constant spliced with
        | None => Raised (reject sql)
        | Some (name, rest) =>
            if forallb pg_space rest
            then Return (column_rows (columns_of cat name))
            else if dangling_quote rest then Raised (reject sql)
            else other sql
        end
    end.

(** A reachable server holding [cat]; the model and the widgets are those of
    [demo_world]. *)
Definition pg_world (cat : list table_record) (reject : str -> exn)
    (other : str -> outcome (list row)) : World :=
  {| db_connect := None;
     db_execute := pg_execute cat reject other;
     db_read_sql := db_read_sql demo_world;
     db_close := None;
     model_configured := model_configured demo_world;
     model_generate := model_generate demo_world;
     ui_query := ui_query demo_world;
     ui_execute_button := ui_execute_button demo_world;
     ui_show_sql := ui_show_sql demo_world |}.

(** A name without a quote in it. *)
Definition quote_free (s : str) : Prop :=
  Forall (fun c => is_quote c = false) s.

(** A catalog as a schema can hold it, where no table name has a quote in
    it: the names are pairwise different. *)
Definition plain_catalog (cat : list table_record) : Prop :=
  NoDup (map fst cat) /\ Forall (fun t => quote_free (fst t)) cat.

(** [text] is the [blocks], in order, with [sep] between each two of them
    and nowhere else. *)
Inductive joined_by (sep : str) : list str -> str -> Prop :=
| joined_none : joined_by sep [] []
| joined_one x : joined_by sep [x] x
| joined_more x y rest text :
    joined_by sep (y :: rest) text ->
    joined_by sep (x :: y :: rest) (x ++ sep ++ text).

(** A schema of two tables, and one of three tables the second of which is
    named [o'brien]. *)
Definition store_catalog : list table_record :=
  [(lit "customers", [(lit "id", lit "integer"); (lit "name", lit "text")]);
   (lit "orders", [(lit "id", lit "integer"); (lit "total", lit "numeric")])].

Definition quoted_catalog : list table_record :=
  [(lit "customers", [(lit "id", lit "integer"); (lit "name", lit "text")]);
   (lit "o'brien", [(lit "id", lit "integer")]);
   (lit "orders", [(lit "id", lit "integer"); (lit "total", lit "numeric")])].


(* ===================================================================== *)
(** ** Laws of the monad *)
(* ===================================================================== *)

Section MonadLaws.

Context {A B : Type}.

Lemma bind_Return (m : M A) (k : A -> M B) s a s' :
  m s = (Return a, s') -> bind m k s = k a s'.
Proof. unfold bind. intros ->. reflexivity. Qed.

Lemma bind_Raised (m : M A) (k : A -> M B) s e s' :
  m s = (Raised e, s') -> bind m k s = (Raised e, s').
Proof. unfold bind. intros ->. reflexivity. Qed.

Lemma bind_emit (ev : event) (k : unit -> M B) s :
  bind (emit ev) k s = k tt (record ev s).
Proof. reflexivity. Qed.

Lemma try_Return (m : M A) (h : exn -> M A) s a s' :
  m s = (Return a, s') -> try_except m h s = (Return a, s').
Proof. unfold try_except. intros ->. reflexivity. Qed.

Lemma try_Raised (m : M A) (h : exn -> M A) s e s' :
  m s = (Raised e, s') -> try_except m h s = h e s'.
Proof. unfold try_except. intros ->. reflexivity. Qed.

(** A handler that always returns makes the whole [try] return. *)
Lemma try_except_returns (m : M A) (h : exn -> M A) s :
  (forall e s', exists a, fst (h e s') = Return a) ->
  exists a, fst (try_except m h s) = Return a.
Proof.
  intros Hh. unfold try_except.
  destruct (m s) as [[a | e] s']; simpl; eauto.
Qed.

End MonadLaws.

(* ===================================================================== *)
(** ** What a call emits *)
(* ===================================================================== *)

Lemma events_of_app {A} (m : M A) s t :
  trace (snd (m s)) = trace s ++ t -> events_of m s = t.
Proof.
  intros H. unfold events_of. rewrite H, skipn_app, skipn_all, Nat.sub_diag.
  reflexivity.
Qed.

Lemma emits_events_of {A} P (m : M A) s :
  emits P m -> Forall P (events_of m s).
Proof.
  intros H. destruct (H s) as (t & Ht & HP).
  rewrite (events_of_app _ _ _ Ht). exact HP.
Qed.

Section Emits.

Variable P : event -> Prop.

Lemma emits_ret {A} (a : A) : emits P (ret a).
Proof. intros s. exists []. simpl. rewrite app_nil_r. auto. Qed.

Lemma emits_raise {A} (e : exn) : emits P (@raise A e).
Proof. intros s. exists []. simpl. rewrite app_nil_r. auto. Qed.

Lemma emits_emit (ev : event) : P ev -> emits P (emit ev).
Proof. intros H s. exists [ev]. simpl. auto. Qed.

Lemma emits_bind {A B} (m : M A) (k : A -> M B) :
  emits P m -> (forall a, emits P (k a)) -> emits P (bind m k).
Proof.
  intros Hm Hk s. unfold bind.
  destruct (Hm s) as (t1 & E1 & F1).
  destruct (m s) as [[a | e] s1]; simpl in *.
  - destruct (Hk a s1) as (t2 & E2 & F2).
    exists (t1 ++ t2). rewrite E2, E1, app_assoc. split; [reflexivity |].
    apply Forall_app; auto.
  - exists t1. auto.
Qed.

Lemma emits_try_except {A} (m : M A) (h : exn -> M A) :
  emits P m -> (forall e, emits P (h e)) -> emits P (try_except m h).
Proof.
  intros Hm Hh s. unfold try_except.
  destruct (Hm s) as (t1 & E1 & F1).
  destruct (m s) as [[a | e] s1]; simpl in *.
  - exists t1. auto.
  - destruct (Hh e s1) as (t2 & E2 & F2).
    exists (t1 ++ t2). rewrite E2, E1, app_assoc. split; [reflexivity |].
    apply Forall_app; auto.
Qed.

Lemma emits_for_in {A S} (xs : list A) (body : A -> S -> M S) :
  (forall x acc, emits P (body x acc)) ->
  forall acc, emits P (for_in xs body acc).
Proof.
  intros Hb. induction xs as [| x rest IH]; intros acc; simpl.
  - apply emits_ret.
  - apply emits_bind; auto.
Qed.

Lemma emits_comprehension {A B} (f : A -> M B) (xs : list A) :
  (forall x, emits P (f x)) -> emits P (comprehension f xs).
Proof.
  intros Hf. induction xs as [| x rest IH]; simpl.
  - apply emits_ret.
  - apply emits_bind; [apply Hf |]. intros y.
    apply emits_bind; [exact IH |]. intros ys. apply emits_ret.
Qed.

Lemma emits_getitem (t : row) (i : nat) : emits P (getitem t i).
Proof.
  unfold getitem. destruct (nth_error t i); [apply emits_ret | apply emits_raise].
Qed.

End Emits.

(* ===================================================================== *)
(** ** Symbolic execution *)
(* ===================================================================== *)

(** Unfolds the monad and the library calls, leaving the case analysis on the
    world's answers. *)
Ltac unfold_calls :=
  unfold get_generated_sql, get_db_schema, execute_query,
    schema_loop_body, format_column,
    pd_read_sql_query, model_generate_content, response_text,
    conn_cursor, logger_error, st;
  unfold bind, try_except, ret, raise, emit,
    psycopg2_connect, cursor_execute, cursor_fetchall, conn_close.

Ltac case_world :=
  match goal with
  | |- context [match db_connect ?w with _ => _ end] =>
      let E := fresh "Econn" in destruct (db_connect w) eqn:E
  | |- context [match db_execute ?w ?q with _ => _ end] =>
      let E := fresh "Eexec" in destruct (db_execute w q) eqn:E
  | |- context [match db_read_sql ?w ?q with _ => _ end] =>
      let E := fresh "Eread" in destruct (db_read_sql w q) eqn:E
  | |- context [match db_close ?w with _ => _ end] =>
      let E := fresh "Eclose" in destruct (db_close w) eqn:E
  | |- context [match model_generate ?w ?p with _ => _ end] =>
      let E := fresh "Egen" in destruct (model_generate w p) eqn:E
  | |- context [if model_configured ?w then _ else _] =>
      let E := fresh "Econf" in destruct (model_configured w) eqn:E
  | |- context [match text ?r with _ => _ end] =>
      let E := fresh "Etext" in destruct (text r) eqn:E
  end.

(* ===================================================================== *)
(** ** [execute_query] *)
(* ===================================================================== *)

Lemma execute_query_returns w sql s :
  exists b v, fst (execute_query w sql s) = Return (b, v).
Proof.
  unfold_calls. repeat case_world; simpl; eauto.
Qed.

Lemma execute_query_error w sql s e :
  execution_error w sql e ->
  fst (execute_query w sql s)
  = Return (false, Text (lit "Error executing query: " ++ exn_str e)).
Proof.
  intros [Hc | Hc Hr | df Hc Hr Hcl]; unfold_calls;
    rewrite ?Hc, ?Hr; simpl; rewrite ?Hcl; reflexivity.
Qed.

Lemma execute_query_success w sql s df :
  db_connect w = None -> db_read_sql w sql = Return df -> db_close w = None ->
  fst (execute_query w sql s) = Return (true, Frame df).
Proof.
  intros Hc Hr Hcl. unfold_calls. rewrite Hc, Hr. simpl. rewrite Hcl.
  reflexivity.
Qed.

Lemma execute_query_true_inv w sql s v :
  fst (execute_query w sql s) = Return (true, v) ->
  exists df, v = Frame df /\ db_read_sql w sql = Return df.
Proof.
  unfold_calls. repeat case_world; simpl; intros H; inversion H; eauto.
Qed.

(* ===================================================================== *)
(** ** The loop of [get_db_schema] *)
(* ===================================================================== *)

Lemma pure_ret {A} (a : A) : pure (ret a).
Proof. intros s. reflexivity. Qed.

Lemma pure_raise {A} (e : exn) : pure (@raise A e).
Proof. intros s. reflexivity. Qed.

Lemma pure_bind {A B} (m : M A) (k : A -> M B) :
  pure m -> (forall a, pure (k a)) -> pure (bind m k).
Proof.
  intros Hm Hk s. unfold bind.
  generalize (Hm s) (Hm initial_state).
  destruct (m initial_state) as [o s0]. simpl. intros -> E0.
  inversion E0; subst s0.
  destruct o as [a | e]; [apply Hk | reflexivity].
Qed.

Lemma pure_getitem (t : row) (i : nat) : pure (getitem t i).
Proof.
  unfold getitem. destruct (nth_error t i); [apply pure_ret | apply pure_raise].
Qed.

Lemma pure_format_column (col : row) : pure (format_column col).
Proof.
  unfold format_column.
  apply pure_bind; [apply pure_getitem |]. intros c0.
  apply pure_bind; [apply pure_getitem |]. intros c1. apply pure_ret.
Qed.

(** The comprehension over the column rows touches nothing: its outcome is a
    function of the rows alone. *)
Lemma comprehension_pure cols : pure (comprehension format_column cols).
Proof.
  induction cols as [| col rest IH]; simpl.
  - apply pure_ret.
  - apply pure_bind; [apply pure_format_column |]. intros y.
    apply pure_bind; [exact IH |]. intros ys. apply pure_ret.
Qed.

(** On well-formed column rows the comprehension yields one entry per column,
    in order. *)
Lemma comprehension_column_rows (cols : list (str * str)) s :
  comprehension format_column (column_rows cols) s
  = (Return (map (fun c => fst c ++ lit " (" ++ snd c ++ lit ")") cols), s).
Proof.
  revert s. induction cols as [| [c ty] rest IH]; intros s; [reflexivity |].
  simpl. unfold bind at 1.
  change (format_column [c; ty] s)
    with (Return (c ++ lit " (" ++ ty ++ lit ")"), s).
  unfold bind. rewrite IH. reflexivity.
Qed.

(** One round of the loop, in closed form. *)
Lemma schema_loop_body_run w cursor table acc s :
  schema_loop_body w cursor table acc s
  = match nth_error table 0 with
    | None => (Raised (Exception (lit "tuple index out of range")), s)
    | Some name =>
        let s' := holding [] (record (CursorExecute cursor (columns_sql name)) s) in
        match db_execute w (columns_sql name) with
        | Raised e => (Raised e, s')
        | Return columns =>
            match fst (comprehension format_column columns initial_state) with
            | Return column_info =>
                (Return (acc ++ [format_table name column_info]), s')
            | Raised e => (Raised e, s')
            end
        end
    end.
Proof.
  unfold schema_loop_body, getitem.
  destruct (nth_error table 0) as [name |]; [| reflexivity].
  unfold bind at 1. unfold ret at 1. unfold bind at 1.
  unfold cursor_execute.
  destruct (db_execute w (columns_sql name)) as [columns | e]; [| reflexivity].
  unfold bind at 1. unfold cursor_fetchall. unfold bind at 1.
  rewrite comprehension_pure. simpl.
  destruct (fst (comprehension format_column columns initial_state));
    reflexivity.
Qed.

(** The loop leaves the connections as they are, whatever it meets. *)
Lemma schema_loop_conns w cursor tables acc s :
  let s' := snd (for_in tables (schema_loop_body w cursor) acc s) in
  open_conns s' = open_conns s /\ next_conn s' = next_conn s.
Proof.
  revert acc s. induction tables as [| table rest IH]; intros acc s; simpl.
  - auto.
  - unfold bind. rewrite schema_loop_body_run.
    destruct (nth_error table 0) as [name |]; simpl; auto.
    destruct (db_execute w (columns_sql name)) as [columns | e]; simpl; auto.
    destruct (fst (comprehension format_column columns initial_state))
      as [column_info | e]; simpl; auto.
    specialize (IH (acc ++ [format_table name column_info])
      (holding [] (record (CursorExecute cursor (columns_sql name)) s))).
    simpl in IH. exact IH.
Qed.

(** When the catalog answers every column query, the loop appends one block
    per table, in order. *)
Lemma schema_loop_reports w cursor (cat : list table_record) :
  (forall name cols, In (name, cols) cat ->
     db_execute w (columns_sql name) = Return (column_rows cols)) ->
  forall acc s,
    fst (for_in (table_rows cat) (schema_loop_body w cursor) acc s)
    = Return (acc ++ map table_block cat).
Proof.
  induction cat as [| [name cols] rest IH]; intros Hcols acc s; simpl.
  - rewrite app_nil_r. reflexivity.
  - unfold bind. rewrite schema_loop_body_run. simpl.
    rewrite (Hcols name cols) by (left; reflexivity).
    rewrite comprehension_column_rows. simpl.
    rewrite IH by (intros n c Hin; apply Hcols; right; exact Hin).
    rewrite <- app_assoc. reflexivity.
Qed.

(** A table whose column query fails makes the loop raise. *)
Lemma schema_loop_raises w cursor tables table name e :
  In table tables -> nth_error table 0 = Some name ->
  db_execute w (columns_sql name) = Raised e ->
  forall acc s, exists e' s',
    for_in tables (schema_loop_body w cursor) acc s = (Raised e', s').
Proof.
  intros Hin Hname Hexec.
  induction tables as [| t rest IH]; [destruct Hin |].
  intros acc s. simpl. unfold bind. rewrite schema_loop_body_run.
  destruct (nth_error t 0) as [n |] eqn:En; [| eauto].
  destruct (db_execute w (columns_sql n)) as [columns | e0] eqn:Ex;
    simpl; [| eauto].
  destruct (fst (comprehension format_column columns initial_state))
    as [column_info | e0]; [| eauto].
  destruct Hin as [-> | Hin].
  - congruence.
  - apply IH. exact Hin.
Qed.

(** The outcome of the loop depends on the database state only: not on the
    program state, nor on which connection carries the queries. *)
Lemma schema_loop_same w1 w2 :
  same_database w1 w2 ->
  forall tables cursor1 cursor2 acc s1 s2,
    fst (for_in tables (schema_loop_body w1 cursor1) acc s1)
    = fst (for_in tables (schema_loop_body w2 cursor2) acc s2).
Proof.
  intros Hsame. induction tables as [| table rest IH]; intros; simpl.
  - reflexivity.
  - unfold bind. rewrite !schema_loop_body_run.
    destruct (nth_error table 0) as [name |]; [| reflexivity]. simpl.
    rewrite (same_execute _ _ Hsame).
    destruct (db_execute w2 (columns_sql name)) as [columns | e];
      [| reflexivity].
    destruct (fst (comprehension format_column columns initial_state));
      [apply IH | reflexivity].
Qed.

(* ===================================================================== *)
(** ** [get_db_schema] *)
(* ===================================================================== *)

Ltac unfold_schema :=
  unfold get_db_schema, conn_cursor, logger_error;
  unfold bind, try_except, ret, emit,
    psycopg2_connect, cursor_execute, cursor_fetchall, conn_close.

Ltac case_loop :=
  match goal with
  | |- context [match for_in ?xs ?b ?a ?s with _ => _ end] =>
      let E := fresh "Eloop" in
      let o := fresh "o" in let s' := fresh "s'" in
      destruct (for_in xs b a s) as [[o | o] s'] eqn:E
  end.

Lemma get_db_schema_returns w s :
  exists schema, fst (get_db_schema w s) = Return schema.
Proof.
  unfold get_db_schema. rewrite bind_emit.
  apply try_except_returns. intros e s'. eexists. reflexivity.
Qed.

Lemma get_db_schema_reports w cat s :
  reports w cat ->
  fst (get_db_schema w s) = Return (join (nl ++ nl) (map table_block cat)).
Proof.
  intros [Hc Ht Hcols Hcl]. unfold_schema. rewrite Hc, Ht. simpl.
  match goal with
  | |- context [for_in ?xs ?b ?a ?s0] =>
      pose proof (schema_loop_reports w (next_conn s) cat Hcols a s0) as Hloop;
      destruct (for_in xs b a s0) as [o s']
  end.
  simpl in Hloop. subst o. rewrite Hcl. reflexivity.
Qed.

Lemma get_db_schema_error w s :
  schema_fetch_error w ->
  fst (get_db_schema w s) = Return (lit "Error fetching schema").
Proof.
  intros [e Hc | e Ht | tables table name e Ht Hin Hname Hexec | e Hcl];
    unfold_schema.
  - rewrite Hc. reflexivity.
  - destruct (db_connect w); [reflexivity |]. rewrite Ht. reflexivity.
  - destruct (db_connect w); [reflexivity |]. rewrite Ht. simpl.
    match goal with
    | |- context [for_in ?xs ?b ?a ?s0] =>
        destruct (schema_loop_raises w (next_conn s) _ _ _ _ Hin Hname Hexec a s0)
          as (e' & s' & Hloop);
        change (for_in xs b a s0 = (Raised e', s')) in Hloop; rewrite Hloop
    end.
    reflexivity.
  - destruct (db_connect w); [reflexivity |].
    destruct (db_execute w tables_sql); [| reflexivity]. simpl.
    case_loop; [| reflexivity]. rewrite Hcl. reflexivity.
Qed.

Lemma get_db_schema_same w1 w2 s1 s2 :
  same_database w1 w2 ->
  fst (get_db_schema w1 s1) = fst (get_db_schema w2 s2).
Proof.
  intros Hsame. unfold_schema.
  rewrite (same_connect _ _ Hsame), (same_close _ _ Hsame),
    (same_execute _ _ Hsame).
  destruct (db_connect w2); [reflexivity |].
  destruct (db_execute w2 tables_sql) as [tables | e]; [| reflexivity]. simpl.
  match goal with
  | |- context [for_in ?xs (schema_loop_body w1 ?c1) ?a ?t1] =>
      match goal with
      | |- context [for_in xs (schema_loop_body w2 ?c2) a ?t2] =>
          pose proof (schema_loop_same w1 w2 Hsame xs c1 c2 a t1 t2) as Hloop;
          destruct (for_in xs (schema_loop_body w1 c1) a t1) as [o1 u1];
          destruct (for_in xs (schema_loop_body w2 c2) a t2) as [o2 u2]
      end
  end.
  simpl in Hloop. subst o2.
  destruct o1; [destruct (db_close w2) |]; reflexivity.
Qed.

(* ===================================================================== *)
(** ** The events of the pipeline functions *)
(* ===================================================================== *)

Lemma emits_weaken {A} (P Q : event -> Prop) (m : M A) :
  (forall e, P e -> Q e) -> emits P m -> emits Q m.
Proof.
  intros HPQ Hm s. destruct (Hm s) as (t & E & F).
  exists t. split; [exact E |]. eapply Forall_impl; eauto.
Qed.

Lemma emits_psycopg2_connect w : emits schema_event (psycopg2_connect w).
Proof.
  intros s. unfold psycopg2_connect.
  destruct (db_connect w); simpl; eexists [_]; split; try reflexivity;
    repeat constructor.
Qed.

Lemma emits_cursor_execute w cursor sql :
  emits schema_event (cursor_execute w cursor sql).
Proof.
  intros s. unfold cursor_execute.
  destruct (db_execute w sql); simpl; eexists [_]; split; try reflexivity;
    repeat constructor.
Qed.

Lemma emits_cursor_fetchall cursor : emits schema_event (cursor_fetchall cursor).
Proof. intros s. exists []. simpl. rewrite app_nil_r. auto. Qed.

Lemma emits_conn_close w conn : emits schema_event (conn_close w conn).
Proof.
  intros s. unfold conn_close. destruct (db_close w); simpl.
  - exists []. rewrite app_nil_r. auto.
  - eexists [_]. split; [reflexivity |]. repeat constructor.
Qed.

Create HintDb emits.
#[local] Hint Resolve emits_ret emits_raise emits_bind emits_try_except
  emits_for_in emits_comprehension emits_getitem emits_psycopg2_connect
  emits_cursor_execute emits_cursor_fetchall emits_conn_close : emits.
#[local] Hint Extern 1 (emits _ (emit _)) =>
  apply emits_emit; reflexivity : emits.

Lemma emits_get_db_schema w : emits schema_event (get_db_schema w).
Proof.
  unfold get_db_schema, schema_loop_body, format_column, conn_cursor,
    logger_error.
  auto 20 with emits.
Qed.

Lemma schema_event_translator e : schema_event e -> translator_event e.
Proof.
  unfold schema_event, translator_event.
  destruct e; simpl; congruence.
Qed.

Lemma emits_get_generated_sql w q :
  emits translator_event (get_generated_sql w q).
Proof.
  unfold get_generated_sql, model_generate_content, response_text,
    logger_error.
  apply emits_bind; [auto with emits |]. intros _.
  apply emits_try_except.
  - apply emits_bind.
    + apply (emits_weaken schema_event); [apply schema_event_translator |].
      apply emits_get_db_schema.
    + intros schema. apply emits_bind.
      * destruct (model_configured w); [| apply emits_raise].
        apply emits_bind; [auto with emits |]. intros _.
        destruct (model_generate w _); auto with emits.
      * intros r. apply emits_bind; [| auto with emits].
        destruct (text r); auto with emits.
  - intros e. auto with emits.
Qed.

(** No event of the translator is a call of the executor, and none of the
    introspector is a model call. *)
Lemma translator_event_not_execute t :
  Forall translator_event t -> filter is_call_execute_query t = [].
Proof.
  induction 1 as [| e t He _ IH]; [reflexivity |]. simpl. rewrite IH.
  destruct e; try reflexivity. discriminate He.
Qed.

Lemma schema_event_not_generate t :
  Forall schema_event t -> filter is_generate_content t = [].
Proof.
  induction 1 as [| e t He _ IH]; [reflexivity |]. simpl. rewrite IH.
  destruct e; try reflexivity. discriminate He.
Qed.

(** The introspector announces itself first. *)
Lemma get_db_schema_first_event w s :
  exists t, trace (snd (get_db_schema w s))
            = trace s ++ Call_get_db_schema :: t /\ Forall schema_event t.
Proof.
  unfold get_db_schema. rewrite bind_emit.
  match goal with
  | |- context [try_except ?m ?h] =>
      assert (Hem : emits schema_event (try_except m h))
  end.
  { unfold schema_loop_body, format_column, conn_cursor, logger_error.
    auto 20 with emits. }
  destruct (Hem (record Call_get_db_schema s)) as (t & E & F).
  exists t. split; [| exact F]. rewrite E. simpl.
  rewrite <- app_assoc. reflexivity.
Qed.

(* ===================================================================== *)
(** ** [get_generated_sql] *)
(* ===================================================================== *)

Lemma outcome_state {A} (r : outcome A * state) a :
  fst r = Return a -> r = (Return a, snd r).
Proof. destruct r as [o s]. simpl. intros ->. reflexivity. Qed.

(** The translator in closed form, given the schema text its own call of the
    introspector returns. *)
Lemma get_generated_sql_run w q s schema :
  let r := get_db_schema w (record (Call_get_generated_sql q) s) in
  fst r = Return schema ->
  get_generated_sql w q s
  = if model_configured w then
      let s1 := record (GenerateContent (build_prompt schema q)) (snd r) in
      match model_generate w (build_prompt schema q) with
      | Return response =>
          match text response with
          | Return t => (Return (strip t), s1)
          | Raised e => translator_failed e s1
          end
      | Raised e => translator_failed e s1
      end
    else translator_failed (Exception (lit "name 'model' is not defined"))
           (snd r).
Proof.
  intros r Hr. apply outcome_state in Hr.
  unfold get_generated_sql. rewrite bind_emit. unfold try_except.
  rewrite (bind_Return _ _ _ _ _ Hr).
  unfold model_generate_content, response_text, logger_error,
    translator_failed.
  unfold bind, emit, ret, raise.
  destruct (model_configured w); [| reflexivity].
  destruct (model_generate w (build_prompt schema q)) as [response | e];
    [| reflexivity].
  destruct (text response); reflexivity.
Qed.

Lemma get_generated_sql_returns w q s :
  exists sql, fst (get_generated_sql w q s) = Return sql.
Proof.
  unfold get_generated_sql. rewrite bind_emit.
  apply try_except_returns. intros e s'. eexists. reflexivity.
Qed.

Lemma get_generated_sql_error w q s schema e :
  fst (get_db_schema w (record (Call_get_generated_sql q) s)) = Return schema ->
  model_call_error w (build_prompt schema q) e ->
  fst (get_generated_sql w q s)
  = Return (lit "Error generating SQL: " ++ exn_str e).
Proof.
  intros Hs Herr. rewrite (get_generated_sql_run w q s schema Hs).
  destruct Herr as [Hc -> | Hc Hg | r Hc Hg Ht]; rewrite Hc.
  - reflexivity.
  - simpl. rewrite Hg. reflexivity.
  - simpl. rewrite Hg, Ht. reflexivity.
Qed.

Lemma get_generated_sql_answer w q s schema t :
  let r := get_db_schema w (record (Call_get_generated_sql q) s) in
  fst r = Return schema ->
  model_answers w (build_prompt schema q) t ->
  get_generated_sql w q s
  = (Return (strip t),
     record (GenerateContent (build_prompt schema q)) (snd r)).
Proof.
  intros r Hs (Hc & resp & Hg & Ht).
  rewrite (get_generated_sql_run w q s schema Hs).
  rewrite Hc. simpl. rewrite Hg, Ht. reflexivity.
Qed.

(** The error strings of the translator carry the prefix the caller tests. *)
Lemma error_prefix (msg : str) :
  startswith (lit "Error generating SQL: " ++ msg) (lit "Error") = true.
Proof. reflexivity. Qed.

(* ===================================================================== *)
(** ** The orchestration step of [main] *)
(* ===================================================================== *)

Lemma main_orchestrate_error_run w q show s sql :
  let r := get_generated_sql w q
             (record (St (st_spinner (lit "Generating SQL query..."))) s) in
  fst r = Return sql ->
  startswith sql (lit "Error") = true ->
  main_orchestrate w q show s
  = (Return tt, record (St (st_error (Text sql))) (snd r)).
Proof.
  intros r Hr Hp. apply outcome_state in Hr.
  unfold main_orchestrate, st. rewrite bind_emit.
  rewrite (bind_Return _ _ _ _ _ Hr). rewrite Hp. reflexivity.
Qed.

Lemma main_orchestrate_error_events w q show s sql :
  let s0 := record (St (st_spinner (lit "Generating SQL query..."))) s in
  fst (get_generated_sql w q s0) = Return sql ->
  startswith sql (lit "Error") = true ->
  events_of (main_orchestrate w q show) s
  = St (st_spinner (lit "Generating SQL query..."))
    :: events_of (get_generated_sql w q) s0 ++ [St (st_error (Text sql))].
Proof.
  intros s0 Hr Hp.
  destruct (emits_get_generated_sql w q s0) as (t & E & _).
  rewrite (events_of_app _ _ _ E).
  apply events_of_app.
  rewrite (main_orchestrate_error_run w q show s sql Hr Hp).
  simpl. fold s0. rewrite E. subst s0. simpl.
  rewrite <- !app_assoc. reflexivity.
Qed.

Lemma Forall_any_event t : Forall any_event t.
Proof. induction t; constructor; unfold any_event; auto. Qed.

Lemma execute_query_first_event w sql s :
  exists t, trace (snd (execute_query w sql s))
            = trace s ++ Call_execute_query sql :: t.
Proof.
  unfold_calls. repeat case_world; simpl; eexists;
    rewrite <- ?app_assoc; reflexivity.
Qed.

Lemma emits_display_results success results :
  emits any_event (display_results success results).
Proof.
  intros s. unfold display_results, results_to_csv, st, bind, emit.
  destruct success; [destruct (len results =? 0); [| destruct results] |];
    simpl; eexists;
    (split; [rewrite <- ?app_assoc; reflexivity | apply Forall_any_event]).
Qed.

Lemma emits_persist {A} (m : M A) s e :
  emits any_event m -> In e (trace s) -> In e (trace (snd (m s))).
Proof.
  intros Hm Hin. destruct (Hm s) as (t & -> & _).
  apply in_or_app. left. exact Hin.
Qed.

(** Otherwise the executor is called with the translator's text. *)
Lemma main_orchestrate_executes w q show s sql :
  let s0 := record (St (st_spinner (lit "Generating SQL query..."))) s in
  fst (get_generated_sql w q s0) = Return sql ->
  startswith sql (lit "Error") = false ->
  In (Call_execute_query sql) (trace (snd (main_orchestrate w q show s))).
Proof.
  intros s0 Hr Hp. apply outcome_state in Hr.
  unfold main_orchestrate, st. rewrite bind_emit.
  rewrite (bind_Return _ _ _ _ _ Hr). rewrite Hp. simpl negb. cbv iota.
  destruct show; unfold bind, emit, ret; simpl;
    match goal with
    | |- context [execute_query w sql ?s1] =>
        destruct (execute_query_first_event w sql s1) as (t & Ht);
        destruct (execute_query w sql s1) as [[[b v] | e] s2]
    end;
    simpl in Ht |- *;
    try (apply emits_persist; [apply emits_display_results |]);
    rewrite Ht; apply in_or_app; right; left; reflexivity.
Qed.

(* ===================================================================== *)
(** ** [str.strip] *)
(* ===================================================================== *)

Lemma lstrip_split (s : str) :
  exists l, s = l ++ lstrip s /\ whitespace l.
Proof.
  induction s as [| c s' (l & E & Hl)]; simpl.
  - exists []. split; [reflexivity | constructor].
  - destruct (isspace c) eqn:Hc.
    + exists (c :: l). split; [simpl; congruence | constructor; assumption].
    + exists []. split; [reflexivity | constructor].
Qed.

Lemma lstrip_head (s : str) c rest :
  lstrip s = c :: rest -> isspace c = false.
Proof.
  induction s as [| d s' IH]; simpl; [discriminate |].
  destruct (isspace d) eqn:Hd; [exact IH |].
  intros E. inversion E; subst. exact Hd.
Qed.

Lemma rstrip_split (s : str) :
  exists r, s = rstrip s ++ r /\ whitespace r.
Proof.
  unfold rstrip. destruct (lstrip_split (rev s)) as (l & E & Hl).
  exists (rev l). split.
  - rewrite <- rev_app_distr, <- E, rev_involutive. reflexivity.
  - apply Forall_rev. exact Hl.
Qed.

Lemma rstrip_last (s : str) init c :
  rstrip s = init ++ [c] -> isspace c = false.
Proof.
  unfold rstrip. intros E.
  apply (f_equal (@rev N)) in E. rewrite rev_involutive, rev_app_distr in E.
  simpl in E. eapply lstrip_head. exact E.
Qed.

(** [strip] removes a run of whitespace at each end and nothing else. *)
Lemma strip_split (t : str) :
  exists l r, t = l ++ strip t ++ r /\ whitespace l /\ whitespace r.
Proof.
  unfold strip.
  destruct (rstrip_split t) as (r & Er & Hr).
  destruct (lstrip_split (rstrip t)) as (l & El & Hl).
  exists l, r. split; [| auto].
  rewrite app_assoc, <- El. exact Er.
Qed.

(** What is left neither starts nor ends with whitespace. *)
Lemma strip_trimmed (t : str) :
  (forall c rest, strip t = c :: rest -> isspace c = false) /\
  (forall init c, strip t = init ++ [c] -> isspace c = false).
Proof.
  unfold strip. split.
  - intros c rest. apply lstrip_head.
  - intros init c E.
    destruct (lstrip_split (rstrip t)) as (l & El & _).
    rewrite E, app_assoc in El. eapply rstrip_last. exact El.
Qed.

(* ===================================================================== *)
(** ** The pipeline on the example worlds *)
(* ===================================================================== *)

Example strip_example :
  strip ([9%N; 32%N] ++ lit "SELECT 1 ;" ++ nl ++ [0xA0%N])
  = lit "SELECT 1 ;".
Proof. reflexivity. Qed.

Example join_example :
  join (lit ", ") [lit "a"; lit "b"; lit "c"] = lit "a, b, c".
Proof. reflexivity. Qed.

Example demo_schema :
  fst (get_db_schema demo_world initial_state)
  = Return (lit "Table: customers" ++ nl
            ++ lit "Columns: id (integer), name (text)").
Proof. vm_compute. reflexivity. Qed.

Example demo_schema_events :
  events_of (get_db_schema demo_world) initial_state
  = [Call_get_db_schema; Connect 0; CursorExecute 0 tables_sql;
     CursorExecute 0 (columns_sql (lit "customers")); Close 0].
Proof. vm_compute. reflexivity. Qed.

(** The end-to-end scenario: the question is translated, the statement is
    executed once, three rows come back, every connection is closed. *)
Example demo_main :
  let s := snd (main demo_world initial_state) in
  filter is_call_execute_query (trace s)
    = [Call_execute_query (lit "SELECT * FROM customers")]
  /\ In (St (st_success (lit "Query returned 3 results."))) (trace s)
  /\ In (St (st_dataframe (Frame demo_frame))) (trace s)
  /\ open_conns s = [].
Proof. vm_compute. intuition. Qed.

(** A statement the database rejects is reported, not raised. *)
Example bad_sql_main :
  let s := snd (main bad_sql_world initial_state) in
  filter is_call_execute_query (trace s) = [Call_execute_query (lit "SELEC 1")]
  /\ In (St (st_error (Text (lit "Error executing query: syntax error at or near SELEC"))))
        (trace s).
Proof. vm_compute. intuition. Qed.

(** With the provider down, [main] shows the error and executes nothing. *)
Example failing_model_main :
  let s := snd (main failing_model_world initial_state) in
  filter is_call_execute_query (trace s) = []
  /\ In (St (st_error (Text (lit "Error generating SQL: 429 quota exceeded"))))
        (trace s).
Proof. vm_compute. intuition. Qed.

(* ===================================================================== *)
(** ** Connections *)
(* ===================================================================== *)

Lemma trace_record e s : trace (record e s) = trace s ++ [e].
Proof. reflexivity. Qed.

(** The path without error closes the connection it opened. *)
Lemma execute_query_success_closes w sql s df :
  db_connect w = None -> db_read_sql w sql = Return df -> db_close w = None ->
  ~ In (next_conn s) (open_conns s) ->
  open_conns (snd (execute_query w sql s)) = open_conns s
  /\ In (Close (next_conn s)) (events_of (execute_query w sql) s).
Proof.
  intros Hc Hr Hcl Hfresh.
  assert (E : execute_query w sql s
              = (Return (true, Frame df),
                 closed (next_conn s)
                   (record (Close (next_conn s))
                      (record (ReadSqlQuery (next_conn s) sql)
                         (opened (next_conn s)
                            (record (Connect (next_conn s))
                               (record (Call_execute_query sql) s))))))).
  { unfold_calls. rewrite Hc, Hr. simpl. rewrite Hcl. reflexivity. }
  split.
  - rewrite E. simpl. destruct (Nat.eq_dec (next_conn s) (next_conn s));
      [| congruence].
    apply notin_remove. exact Hfresh.
  - erewrite events_of_app.
    2:{ rewrite E. simpl. rewrite <- !app_assoc. reflexivity. }
    simpl. tauto.
Qed.

(* ===================================================================== *)
(** ** The properties of the specification *)
(* ===================================================================== *)

(** C1.  [get_generated_sql] always returns a string and raises nothing;
    whenever the model call fails, the string is
    [Error generating SQL: <message>]; and whenever the
    string it returns starts with [Error], the orchestration step of [main]
    returns without a single call of [execute_query] and ends by showing that
    string with [st.error]. *)
Theorem translator_failure_skips_executor w q show s :
  (exists sql, fst (get_generated_sql w q s) = Return sql)
  /\
  (forall schema e,
      fst (get_db_schema w (record (Call_get_generated_sql q) s))
        = Return schema ->
      model_call_error w (build_prompt schema q) e ->
      fst (get_generated_sql w q s)
        = Return (lit "Error generating SQL: " ++ exn_str e)
      /\ startswith (lit "Error generating SQL: " ++ exn_str e) (lit "Error")
         = true)
  /\
  (forall sql,
      fst (get_generated_sql w q
             (record (St (st_spinner (lit "Generating SQL query..."))) s))
        = Return sql ->
      startswith sql (lit "Error") = true ->
      fst (main_orchestrate w q show s) = Return tt
      /\ filter is_call_execute_query (events_of (main_orchestrate w q show) s)
         = []
      /\ exists before,
           events_of (main_orchestrate w q show) s
           = before ++ [St (st_error (Text sql))]).
Proof.
  split; [apply get_generated_sql_returns |].
  split.
  - intros schema e Hs Herr. split.
    + apply (get_generated_sql_error w q s schema e Hs Herr).
    + apply error_prefix.
  - intros sql Hr Hp.
    pose proof (main_orchestrate_error_events w q show s sql Hr Hp) as Hev.
    split; [| split].
    + rewrite (main_orchestrate_error_run w q show s sql Hr Hp). reflexivity.
    + rewrite Hev. simpl. rewrite filter_app. simpl.
      rewrite translator_event_not_execute; [reflexivity |].
      apply emits_events_of. apply emits_get_generated_sql.
    + rewrite Hev. eexists (_ :: _). reflexivity.
Qed.

(** C3.  [execute_query] never raises: from every state and for every
    statement it returns a pair; on a database error with exception [e] the
    pair is [(False, "Error executing query: " + str(e))]; when the
    connection, the statement and the close succeed it is [(True, df)] with
    [df] the result set of the statement, whatever its number of rows. *)
Theorem execute_query_never_raises w sql s :
  (exists b v, fst (execute_query w sql s) = Return (b, v))
  /\ (forall e, execution_error w sql e ->
        fst (execute_query w sql s)
        = Return (false, Text (lit "Error executing query: " ++ exn_str e)))
  /\ (forall df,
        db_connect w = None -> db_read_sql w sql = Return df ->
        db_close w = None ->
        fst (execute_query w sql s) = Return (true, Frame df))
  /\ (forall v, fst (execute_query w sql s) = Return (true, v) ->
        exists df, v = Frame df /\ db_read_sql w sql = Return df).
Proof.
  split; [apply execute_query_returns |].
  split; [intros e; apply execute_query_error |].
  split; [intros df; apply execute_query_success |].
  intros v. apply execute_query_true_inv.
Qed.

(** C4.  On a connectivity or catalog-query error, the failed connection
    included, [get_db_schema] returns exactly [Error fetching schema]; it
    raises nothing. *)
Theorem get_db_schema_error_sentinel w s :
  schema_fetch_error w ->
  fst (get_db_schema w s) = Return (lit "Error fetching schema").
Proof. apply get_db_schema_error. Qed.

(** C5.  [get_generated_sql] calls [get_db_schema] itself; when the model
    call for the prompt built from that schema text and the question succeeds
    with text [t], exactly one prompt is sent, it is the fixed template with
    the schema text and the question spliced in unchanged, and the function
    returns [t] with the whitespace at its two ends removed: [t] is that
    result between two runs of whitespace, and the result neither starts nor
    ends with whitespace. *)
Theorem get_generated_sql_prompt_and_answer w q s :
  exists schema,
    fst (get_db_schema w (record (Call_get_generated_sql q) s)) = Return schema
    /\ forall t,
         model_answers w (build_prompt schema q) t ->
         fst (get_generated_sql w q s) = Return (strip t)
         /\ filter is_generate_content (events_of (get_generated_sql w q) s)
            = [GenerateContent
                 (prompt_before_schema ++ schema ++ prompt_before_question
                  ++ q ++ prompt_after_question)]
         /\ In Call_get_db_schema (events_of (get_generated_sql w q) s)
         /\ (exists l r, t = l ++ strip t ++ r /\ whitespace l /\ whitespace r)
         /\ (forall c rest, strip t = c :: rest -> isspace c = false)
         /\ (forall init c, strip t = init ++ [c] -> isspace c = false).
Proof.
  destruct (get_db_schema_returns w (record (Call_get_generated_sql q) s))
    as (schema & Hs).
  exists schema. split; [exact Hs |]. intros t Hans.
  pose proof (get_generated_sql_answer w q s schema t Hs Hans) as Hrun.
  destruct (get_db_schema_first_event w (record (Call_get_generated_sql q) s))
    as (ts & Ets & Fts).
  assert (Hev : events_of (get_generated_sql w q) s
                = Call_get_generated_sql q :: Call_get_db_schema :: ts
                  ++ [GenerateContent (build_prompt schema q)]).
  { apply events_of_app. rewrite Hrun. simpl. rewrite Ets. simpl.
    rewrite <- !app_assoc. reflexivity. }
  split; [rewrite Hrun; reflexivity |].
  split; [| split; [| split; [| apply strip_trimmed]]].
  - rewrite Hev. simpl. rewrite filter_app.
    rewrite (schema_event_not_generate ts Fts). reflexivity.
  - rewrite Hev. right. left. reflexivity.
  - apply strip_split.
Qed.

Lemma get_db_schema_success_closes w cat s :
  reports w cat ->
  ~ In (next_conn s) (open_conns s) ->
  open_conns (snd (get_db_schema w s)) = open_conns s.
Proof.
  intros [Hc Ht Hcols Hcl] Hfresh. unfold_schema. rewrite Hc, Ht. simpl.
  match goal with
  | |- context [for_in ?xs ?b ?a ?s0] =>
      pose proof (schema_loop_reports w (next_conn s) cat Hcols a s0) as Hloop;
      pose proof (schema_loop_conns w (next_conn s) xs a s0) as Hconns;
      destruct (for_in xs b a s0) as [o s']
  end.
  simpl in Hloop, Hconns. subst o. rewrite Hcl. simpl.
  rewrite (proj1 Hconns). simpl.
  destruct (Nat.eq_dec (next_conn s) (next_conn s)); [| congruence].
  apply notin_remove. exact Hfresh.
Qed.

(** C6.  What the code does when the work on an established connection
    fails: [execute_query] on a statement the database rejects, and
    [get_db_schema] on a refused catalog query, return with the connection
    they opened still open; no [close] was issued on the way. *)
Theorem connection_left_open_on_error w s e :
  db_connect w = None ->
  (forall sql,
      db_read_sql w sql = Raised e ->
      open_conns (snd (execute_query w sql s)) = next_conn s :: open_conns s
      /\ events_of (execute_query w sql) s
         = [Call_execute_query sql; Connect (next_conn s);
            ReadSqlQuery (next_conn s) sql;
            LogError (lit "Database error: " ++ exn_str e)])
  /\
  (db_execute w tables_sql = Raised e ->
      open_conns (snd (get_db_schema w s)) = next_conn s :: open_conns s
      /\ events_of (get_db_schema w) s
         = [Call_get_db_schema; Connect (next_conn s);
            CursorExecute (next_conn s) tables_sql;
            LogError (lit "Failed to fetch database schema: " ++ exn_str e)]).
Proof.
  intros Hc. split.
  - intros sql Hr.
    assert (E : execute_query w sql s
                = (Return (false,
                           Text (lit "Error executing query: " ++ exn_str e)),
                   record (LogError (lit "Database error: " ++ exn_str e))
                     (record (ReadSqlQuery (next_conn s) sql)
                        (opened (next_conn s)
                           (record (Connect (next_conn s))
                              (record (Call_execute_query sql) s)))))).
    { unfold_calls. rewrite Hc, Hr. reflexivity. }
    split; [rewrite E; reflexivity |].
    apply events_of_app. rewrite E. simpl. rewrite <- !app_assoc. reflexivity.
  - intros Ht.
    assert (E : get_db_schema w s
                = (Return (lit "Error fetching schema"),
                   record (LogError (lit "Failed to fetch database schema: "
                                     ++ exn_str e))
                     (holding []
                        (record (CursorExecute (next_conn s) tables_sql)
                           (opened (next_conn s)
                              (record (Connect (next_conn s))
                                 (record Call_get_db_schema s))))))).
    { unfold_schema. rewrite Hc, Ht. reflexivity. }
    split; [rewrite E; reflexivity |].
    apply events_of_app. rewrite E. simpl. rewrite <- !app_assoc. reflexivity.
Qed.

(** C7.  When the schema fetch fails, [get_generated_sql] goes on.  To a
    configured model it sends exactly one prompt, and that prompt is the
    template with the text [Error fetching schema] standing where the schema
    belongs, followed by the question.  When the model answers that prompt
    with text [t] the function returns [t] stripped; and whatever it returns
    is either the error string of a failed model call or the model's own
    stripped answer, so the failed fetch by itself puts no [Error] prefix on
    the result. *)
Theorem schema_failure_does_not_fail_translator w q s :
  schema_fetch_error w ->
  (model_configured w = true ->
     filter is_generate_content (events_of (get_generated_sql w q) s)
     = [GenerateContent
          (prompt_before_schema ++ lit "Error fetching schema"
           ++ prompt_before_question ++ q ++ prompt_after_question)])
  /\ (forall t,
        model_answers w
          (prompt_before_schema ++ lit "Error fetching schema"
           ++ prompt_before_question ++ q ++ prompt_after_question) t ->
        fst (get_generated_sql w q s) = Return (strip t))
  /\ (forall sql,
        fst (get_generated_sql w q s) = Return sql ->
        (exists e,
           model_call_error w
             (prompt_before_schema ++ lit "Error fetching schema"
              ++ prompt_before_question ++ q ++ prompt_after_question) e
           /\ sql = lit "Error generating SQL: " ++ exn_str e)
        \/ (exists t,
              model_answers w
                (prompt_before_schema ++ lit "Error fetching schema"
                 ++ prompt_before_question ++ q ++ prompt_after_question) t
              /\ sql = strip t)).
Proof.
  intros Herr.
  change (prompt_before_schema ++ lit "Error fetching schema"
          ++ prompt_before_question ++ q ++ prompt_after_question)
    with (build_prompt (lit "Error fetching schema") q).
  pose proof (get_db_schema_error w (record (Call_get_generated_sql q) s) Herr)
    as Hs.
  pose proof (get_generated_sql_run w q s _ Hs) as Hrun. simpl in Hrun.
  split; [| split].
  - intros Hc. rewrite Hc in Hrun.
    destruct (emits_get_db_schema w (record (Call_get_generated_sql q) s))
      as (ts & Ets & Fts).
    assert (Hev : exists after,
               events_of (get_generated_sql w q) s
               = Call_get_generated_sql q :: ts
                 ++ GenerateContent
                      (build_prompt (lit "Error fetching schema") q)
                    :: after
               /\ filter is_generate_content after = []).
    { destruct (model_generate w _) as [r | e]; [destruct (text r) as [t | e] |];
        [exists [] | eexists [_] | eexists [_]];
        (split;
         [apply events_of_app; rewrite Hrun; unfold translator_failed;
          cbn [snd]; rewrite ?trace_record, Ets, trace_record;
          rewrite <- ?app_assoc; reflexivity
         | reflexivity]). }
    destruct Hev as (after & -> & Hafter).
    cbn [filter is_generate_content]. rewrite filter_app.
    rewrite (schema_event_not_generate ts Fts).
    cbn [filter is_generate_content app]. rewrite Hafter. reflexivity.
  - intros t Hans.
    rewrite (get_generated_sql_answer w q s _ t Hs Hans). reflexivity.
  - intros sql Hsql. rewrite Hrun in Hsql. unfold translator_failed in Hsql.
    destruct (model_configured w) eqn:Hc.
    + destruct (model_generate w _) as [r | e] eqn:Hg.
      * destruct (text r) as [t | e] eqn:Ht; cbn [fst] in Hsql;
          injection Hsql as <-.
        -- right. exists t. split; [split; [exact Hc | eauto] | reflexivity].
        -- left. exists e. split; [| reflexivity].
           eapply model_text_error; eauto.
      * cbn [fst] in Hsql. injection Hsql as <-.
        left. exists e. split; [| reflexivity].
        apply model_request_error; assumption.
    + cbn [fst] in Hsql. injection Hsql as <-.
      left. exists (Exception (lit "name 'model' is not defined")).
      split; [| reflexivity].
      apply model_unbound; [exact Hc | reflexivity].
Qed.

(** C8.  Against an unchanged database state, a second call of
    [get_db_schema], made right after the first, returns the text the first
    returned. *)
Theorem get_db_schema_idempotent w1 w2 s :
  same_database w1 w2 ->
  fst (get_db_schema w2 (snd (get_db_schema w1 s)))
  = fst (get_db_schema w1 s).
Proof. intros Hsame. symmetry. apply get_db_schema_same. exact Hsame. Qed.

(** C9.  When the model call succeeds and the stripped response text begins
    with [Error], the translator returns that text as its result, and the
    orchestration step treats it as it treats a failure: it shows the text
    with [st.error] and never calls [execute_query]. *)
Theorem error_like_answer_is_not_executed w q show s schema t :
  fst (get_db_schema w
         (record (Call_get_generated_sql q)
            (record (St (st_spinner (lit "Generating SQL query..."))) s)))
    = Return schema ->
  model_answers w (build_prompt schema q) t ->
  startswith (strip t) (lit "Error") = true ->
  fst (get_generated_sql w q
         (record (St (st_spinner (lit "Generating SQL query..."))) s))
    = Return (strip t)
  /\ filter is_call_execute_query (events_of (main_orchestrate w q show) s)
     = []
  /\ exists before,
       events_of (main_orchestrate w q show) s
       = before ++ [St (st_error (Text (strip t)))].
Proof.
  intros Hs Hans Hp.
  assert (Hr : fst (get_generated_sql w q
                      (record (St (st_spinner (lit "Generating SQL query...")))
                         s))
               = Return (strip t)).
  { rewrite (get_generated_sql_answer w q _ schema t Hs Hans). reflexivity. }
  split; [exact Hr |].
  pose proof (main_orchestrate_error_events w q show s _ Hr Hp) as Hev.
  split.
  - rewrite Hev. simpl. rewrite filter_app. simpl.
    rewrite translator_event_not_execute; [reflexivity |].
    apply emits_events_of. apply emits_get_generated_sql.
  - rewrite Hev. eexists (_ :: _). reflexivity.
Qed.

(** C10.  When the database is reachable and its public schema has no table,
    [get_db_schema] returns the empty string, which is not the sentinel
    [Error fetching schema]. *)
Theorem get_db_schema_no_tables w s :
  reports w [] ->
  fst (get_db_schema w s) = Return []
  /\ ([] : str) <> lit "Error fetching schema".
Proof.
  intros Hrep. split.
  - apply (get_db_schema_reports w [] s Hrep).
  - discriminate.
Qed.

(* ===================================================================== *)
(** ** The properties at concrete inputs *)
(* ===================================================================== *)

Lemma demo_world_reports : reports demo_world demo_catalog.
Proof.
  constructor; try reflexivity.
  intros name cols [E | []]. inversion E; subst. reflexivity.
Defined.

Lemma translator_failure_skips_executor_witness :
  fst (get_generated_sql failing_model_world (lit "List all customers")
         initial_state)
    = Return (lit "Error generating SQL: 429 quota exceeded")
  /\ filter is_call_execute_query
       (events_of (main_orchestrate failing_model_world
                     (lit "List all customers") true) initial_state)
     = [].
Proof.
  destruct (translator_failure_skips_executor failing_model_world
              (lit "List all customers") true initial_state) as (_ & Ha & Hb).
  split.
  - refine (proj1 (Ha (join (nl ++ nl) (map table_block demo_catalog))
                      (Exception (lit "429 quota exceeded")) _ _)).
    + vm_compute. reflexivity.
    + apply model_request_error; reflexivity.
  - refine (proj1 (proj2 (Hb (lit "Error generating SQL: 429 quota exceeded")
                             _ _))); vm_compute; reflexivity.
Defined.

Lemma execute_query_never_raises_witness :
  fst (execute_query demo_world (lit "SELECT * FROM customers WHERE id < 0")
         initial_state)
    = Return (true, Frame empty_frame)
  /\ fst (execute_query demo_world (lit "SELEC 1") initial_state)
     = Return (false,
               Text (lit "Error executing query: syntax error at or near SELEC")).
Proof.
  split.
  - apply (proj1 (proj2 (proj2
      (execute_query_never_raises demo_world
         (lit "SELECT * FROM customers WHERE id < 0") initial_state))));
      reflexivity.
  - apply (proj1 (proj2
      (execute_query_never_raises demo_world (lit "SELEC 1") initial_state))
      syntax_error).
    apply exec_statement_error; reflexivity.
Defined.

Lemma get_db_schema_error_sentinel_witness :
  schema_fetch_error unreachable_world
  /\ fst (get_db_schema unreachable_world initial_state)
     = Return (lit "Error fetching schema").
Proof.
  assert (H : schema_fetch_error unreachable_world).
  { apply (connect_error _ (Exception (lit "could not connect to server"))).
    reflexivity. }
  split; [exact H |].
  apply (get_db_schema_error_sentinel unreachable_world initial_state H).
Defined.

Lemma get_generated_sql_prompt_and_answer_witness :
  fst (get_generated_sql demo_world (lit "List all customers") initial_state)
  = Return (lit "SELECT * FROM customers").
Proof.
  destruct (get_generated_sql_prompt_and_answer demo_world
              (lit "List all customers") initial_state)
    as (schema & _ & H).
  destruct (H (lit "  SELECT * FROM customers" ++ nl)) as [E _].
  - split; [reflexivity |]. eexists. split; reflexivity.
  - exact E.
Defined.

Lemma connection_left_open_on_error_witness :
  open_conns (snd (execute_query demo_world (lit "SELEC 1") initial_state))
    = [0]
  /\ open_conns (snd (get_db_schema denied_world initial_state)) = [0].
Proof.
  split.
  - apply (proj1 (connection_left_open_on_error demo_world initial_state
                    syntax_error eq_refl) (lit "SELEC 1")).
    reflexivity.
  - apply (proj2 (connection_left_open_on_error denied_world initial_state
                    (Exception (lit "permission denied")) eq_refl)).
    reflexivity.
Defined.

Lemma schema_failure_does_not_fail_translator_witness :
  schema_fetch_error unreachable_world
  /\ fst (get_generated_sql unreachable_world (lit "List all customers")
            initial_state)
     = Return (lit "SELECT 1")
  /\ filter is_generate_content
       (events_of (get_generated_sql unreachable_world
                     (lit "List all customers")) initial_state)
     = [GenerateContent
          (prompt_before_schema ++ lit "Error fetching schema"
           ++ prompt_before_question ++ lit "List all customers"
           ++ prompt_after_question)].
Proof.
  assert (H : schema_fetch_error unreachable_world).
  { apply (connect_error _ (Exception (lit "could not connect to server"))).
    reflexivity. }
  split; [exact H |].
  destruct (schema_failure_does_not_fail_translator unreachable_world
              (lit "List all customers") initial_state H) as (Hsent & Hans & _).
  split.
  - apply (Hans (lit "SELECT 1")).
    split; [reflexivity |]. eexists. split; reflexivity.
  - apply Hsent. reflexivity.
Defined.

Lemma get_db_schema_idempotent_witness :
  same_database demo_world demo_world
  /\ fst (get_db_schema demo_world
            (snd (get_db_schema demo_world initial_state)))
     = fst (get_db_schema demo_world initial_state).
Proof.
  assert (H : same_database demo_world demo_world)
    by (constructor; reflexivity).
  split; [exact H |].
  apply (get_db_schema_idempotent demo_world demo_world initial_state H).
Defined.

Lemma error_like_answer_is_not_executed_witness :
  fst (get_generated_sql error_answer_world (lit "List all customers")
         (record (St (st_spinner (lit "Generating SQL query...")))
            initial_state))
    = Return (lit "Error codes are listed in table errors;")
  /\ filter is_call_execute_query
       (events_of (main_orchestrate error_answer_world
                     (lit "List all customers") true) initial_state)
     = [].
Proof.
  destruct (error_like_answer_is_not_executed error_answer_world
              (lit "List all customers") true initial_state
              (join (nl ++ nl) (map table_block demo_catalog))
              (lit "Error codes are listed in table errors;" ++ nl))
    as (Hr & Hskip & _).
  - vm_compute. reflexivity.
  - split; [reflexivity |]. eexists. split; reflexivity.
  - vm_compute. reflexivity.
  - split; [exact Hr | exact Hskip].
Defined.

Lemma get_db_schema_no_tables_witness :
  reports empty_world []
  /\ fst (get_db_schema empty_world initial_state) = Return [].
Proof.
  assert (H : reports empty_world []).
  { constructor; try reflexivity. intros name cols []. }
  split; [exact H |].
  apply (proj1 (get_db_schema_no_tables empty_world initial_state H)).
Defined.

(* ===================================================================== *)
(** ** The events of a sequence of calls *)
(* ===================================================================== *)

Lemma emits_any {A} P (m : M A) : emits P m -> emits any_event m.
Proof. apply emits_weaken. intros e _. exact I. Qed.

Lemma trace_events_of {A} (m : M A) s :
  emits any_event m -> trace (snd (m s)) = trace s ++ events_of m s.
Proof.
  intros Hm. destruct (Hm s) as (t & E & _).
  rewrite (events_of_app _ _ _ E). exact E.
Qed.

Lemma events_of_ret {A} (a : A) s : events_of (ret a) s = [].
Proof. apply events_of_app. simpl. rewrite app_nil_r. reflexivity. Qed.

Lemma events_of_emit ev s : events_of (emit ev) s = [ev].
Proof. apply events_of_app. reflexivity. Qed.

(** The events of [m ;; k] are those of [m] followed by those of [k], which
    runs only if [m] returned. *)
Lemma events_of_bind {A B} (m : M A) (k : A -> M B) s :
  emits any_event m -> (forall a, emits any_event (k a)) ->
  events_of (bind m k) s
  = events_of m s
    ++ match m s with
       | (Return a, s1) => events_of (k a) s1
       | (Raised _, _) => []
       end.
Proof.
  intros Hm Hk. apply events_of_app. unfold bind.
  pose proof (trace_events_of m s Hm) as E1.
  destruct (m s) as [[a | e] s1]; simpl in E1 |- *.
  - rewrite (trace_events_of (k a) s1 (Hk a)), E1, app_assoc. reflexivity.
  - rewrite E1, app_nil_r. reflexivity.
Qed.

(** The events of a [try] are those of its body followed by those of the
    handler, which runs only if the body raised. *)
Lemma events_of_try_except {A} (m : M A) (h : exn -> M A) s :
  emits any_event m -> (forall e, emits any_event (h e)) ->
  events_of (try_except m h) s
  = events_of m s
    ++ match m s with
       | (Return _, _) => []
       | (Raised e, s1) => events_of (h e) s1
       end.
Proof.
  intros Hm Hh. apply events_of_app. unfold try_except.
  pose proof (trace_events_of m s Hm) as E1.
  destruct (m s) as [[a | e] s1]; simpl in E1 |- *.
  - rewrite E1, app_nil_r. reflexivity.
  - rewrite (trace_events_of (h e) s1 (Hh e)), E1, app_assoc. reflexivity.
Qed.

Lemma events_of_bind_emit {B} ev (k : unit -> M B) s :
  (forall a, emits any_event (k a)) ->
  events_of (bind (emit ev) k) s = ev :: events_of (k tt) (record ev s).
Proof.
  intros Hk. rewrite events_of_bind; [| apply emits_emit; exact I | exact Hk].
  rewrite events_of_emit. reflexivity.
Qed.

(** A filter that selects nothing of what a call can emit. *)
Lemma filter_none (f : event -> bool) (P : event -> Prop) t :
  (forall e, P e -> f e = false) -> Forall P t -> filter f t = [].
Proof.
  intros Hf. induction 1 as [| e t He _ IH]; [reflexivity |].
  simpl. rewrite (Hf e He). exact IH.
Qed.

(* ===================================================================== *)
(** ** Calls that return *)
(* ===================================================================== *)

Lemma returns_ret {A} (a : A) : returns (ret a).
Proof. intros s. exists a. reflexivity. Qed.

Lemma returns_emit ev : returns (emit ev).
Proof. intros s. exists tt. reflexivity. Qed.

Lemma returns_bind {A B} (m : M A) (k : A -> M B) :
  returns m -> (forall a, returns (k a)) -> returns (bind m k).
Proof.
  intros Hm Hk s. unfold bind. destruct (Hm s) as (a & Ha).
  destruct (m s) as [[a' | e] s1]; simpl in Ha; [| discriminate].
  apply Hk.
Qed.

Lemma returns_try_except {A} (m : M A) (h : exn -> M A) :
  (forall e, returns (h e)) -> returns (try_except m h).
Proof.
  intros Hh s. apply try_except_returns. intros e s'. apply Hh.
Qed.

Lemma returns_get_db_schema w : returns (get_db_schema w).
Proof. intros s. apply get_db_schema_returns. Qed.

Lemma returns_get_generated_sql w q : returns (get_generated_sql w q).
Proof. intros s. apply get_generated_sql_returns. Qed.

Lemma returns_execute_query w sql : returns (execute_query w sql).
Proof.
  intros s. destruct (execute_query_returns w sql s) as (b & v & E). eauto.
Qed.

(** The continuation need only return for the values the first call can
    return. *)
Lemma returns_bind_dep {A B} (m : M A) (k : A -> M B) :
  returns m ->
  (forall a s0, fst (m s0) = Return a -> returns (k a)) ->
  returns (bind m k).
Proof.
  intros Hm Hk s. unfold bind. destruct (Hm s) as (a & Ha).
  destruct (m s) as [[a' | e] s1] eqn:Em; simpl in Ha; [| discriminate].
  apply (Hk a' s). rewrite Em. reflexivity.
Qed.

Lemma returns_display_results success results :
  displayable (success, results) ->
  returns (display_results success results).
Proof.
  unfold display_results, results_to_csv, st.
  destruct success; [destruct (len results =? 0); [| destruct results] |];
    simpl; intros H; try contradiction;
    repeat first [apply returns_emit | apply returns_ret
                 | apply returns_bind | intros _ | intro].
Qed.

(** What [execute_query] returns is always displayable. *)
Lemma execute_query_displayable w sql s r :
  fst (execute_query w sql s) = Return r -> displayable r.
Proof.
  destruct r as [[|] v]; [| intros _; exact I].
  intros H. destruct (execute_query_true_inv w sql s v H) as (df & -> & _).
  exact I.
Qed.

Lemma returns_main_sidebar w : returns (main_sidebar w).
Proof.
  unfold main_sidebar, st.
  repeat (apply returns_bind; [apply returns_emit | intros _]).
  apply returns_try_except. intros e. apply returns_emit.
Qed.

Lemma returns_main_orchestrate w q show : returns (main_orchestrate w q show).
Proof.
  unfold main_orchestrate, st.
  apply returns_bind; [apply returns_emit | intros _].
  apply returns_bind; [apply returns_get_generated_sql | intros sql].
  destruct (startswith sql (lit "Error")); simpl; [apply returns_emit |].
  apply returns_bind.
  { destruct show; [| apply returns_ret].
    apply returns_bind; [apply returns_emit | intros _; apply returns_emit]. }
  intros _. apply returns_bind; [apply returns_emit | intros _].
  apply returns_bind_dep; [apply returns_execute_query |].
  intros [b v] s0 Hex. apply returns_display_results.
  apply (execute_query_displayable w sql s0 _ Hex).
Qed.

Lemma returns_main w : returns (main w).
Proof.
  unfold main, st.
  repeat (apply returns_bind; [apply returns_emit | intros _]).
  apply returns_bind; [apply returns_main_sidebar | intros _].
  repeat (apply returns_bind; [apply returns_emit | intros _]).
  apply returns_bind.
  { destruct (ui_execute_button w && truthy (ui_query w));
      [apply returns_main_orchestrate | apply returns_ret]. }
  intros _. apply returns_bind; [apply returns_emit | intros _].
  apply returns_emit.
Qed.

(* ===================================================================== *)
(** ** The events of each function, in closed form *)
(* ===================================================================== *)

Lemma execute_query_events w sql s :
  events_of (execute_query w sql) s
  = Call_execute_query sql
    :: match db_connect w with
       | Some e => [ConnectFailed; LogError (lit "Database error: " ++ exn_str e)]
       | None =>
           Connect (next_conn s) :: ReadSqlQuery (next_conn s) sql
           :: match db_read_sql w sql with
              | Raised e => [LogError (lit "Database error: " ++ exn_str e)]
              | Return _ =>
                  match db_close w with
                  | Some e => [LogError (lit "Database error: " ++ exn_str e)]
                  | None => [Close (next_conn s)]
                  end
              end
       end.
Proof.
  apply events_of_app. unfold_calls.
  repeat case_world; simpl; rewrite <- ?app_assoc; reflexivity.
Qed.

Lemma emits_execute_query w sql : emits executor_event (execute_query w sql).
Proof.
  intros s. exists (events_of (execute_query w sql) s). split.
  - destruct (execute_query_first_event w sql s) as (t & E).
    rewrite (events_of_app _ _ _ E). exact E.
  - rewrite execute_query_events.
    destruct (db_connect w); [repeat constructor |].
    destruct (db_read_sql w sql); [| repeat constructor].
    destruct (db_close w); repeat constructor.
Qed.

Lemma display_results_events success results s :
  events_of (display_results success results) s
  = if success then
      if len results =? 0 then
        [St (st_info
               (lit "Query executed successfully, but returned no results."))]
      else
        St (st_success (lit "Query returned " ++ str_of_nat (len results)
                        ++ lit " results."))
        :: St (st_dataframe results)
        :: match results with
           | Frame _ => [St (st_download_button results)]
           | Text _ => []
           end
    else [St (st_error results)].
Proof.
  apply events_of_app. unfold display_results, results_to_csv, st, bind, emit.
  destruct success; [destruct (len results =? 0); [| destruct results] |];
    simpl; rewrite <- ?app_assoc; reflexivity.
Qed.

(** The body of the introspector emits database events only. *)
Lemma get_db_schema_call_then_db w s :
  exists t, events_of (get_db_schema w) s = Call_get_db_schema :: t
            /\ Forall db_event t.
Proof.
  unfold get_db_schema.
  match goal with
  | |- context [try_except ?m ?h] =>
      assert (Hem : emits db_event (try_except m h))
  end.
  { unfold schema_loop_body, format_column, conn_cursor, logger_error.
    assert (Hc : emits db_event (psycopg2_connect w)).
    { intros s0. unfold psycopg2_connect.
      destruct (db_connect w); simpl; eexists [_]; split; try reflexivity;
        repeat constructor. }
    assert (Hx : forall c q, emits db_event (cursor_execute w c q)).
    { intros c q s0. unfold cursor_execute.
      destruct (db_execute w q); simpl; eexists [_]; split; try reflexivity;
        repeat constructor. }
    assert (Hf : forall c, emits db_event (cursor_fetchall c)).
    { intros c s0. exists []. simpl. rewrite app_nil_r. auto. }
    assert (Hcl : forall c, emits db_event (conn_close w c)).
    { intros c s0. unfold conn_close. destruct (db_close w); simpl.
      - exists []. rewrite app_nil_r. auto.
      - eexists [_]. split; [reflexivity |]. repeat constructor. }
    apply emits_try_except.
    - apply emits_bind; [exact Hc | intros conn].
      apply emits_bind; [apply emits_ret | intros cursor].
      apply emits_bind; [apply Hx | intros _].
      apply emits_bind; [apply Hf | intros tables].
      apply emits_bind.
      + apply emits_for_in. intros table acc.
        apply emits_bind; [apply emits_getitem | intros name].
        apply emits_bind; [apply Hx | intros _].
        apply emits_bind; [apply Hf | intros columns].
        apply emits_bind; [| intros info; apply emits_ret].
        apply emits_comprehension. intros col.
        apply emits_bind; [apply emits_getitem | intros c0].
        apply emits_bind; [apply emits_getitem | intros c1].
        apply emits_ret.
      + intros info. apply emits_bind; [apply Hcl | intros _].
        apply emits_ret.
    - intros e. apply emits_bind; [| intros _; apply emits_ret].
      apply emits_emit. reflexivity. }
  rewrite events_of_bind_emit; [| intros _; apply (emits_any _ _ Hem)].
  eexists. split; [reflexivity |].
  apply emits_events_of. exact Hem.
Qed.

Lemma mono_get_db_schema w : emits any_event (get_db_schema w).
Proof. apply (emits_any _ _ (emits_get_db_schema w)). Qed.

Lemma mono_get_generated_sql w q : emits any_event (get_generated_sql w q).
Proof. apply (emits_any _ _ (emits_get_generated_sql w q)). Qed.

Lemma mono_execute_query w sql : emits any_event (execute_query w sql).
Proof. apply (emits_any _ _ (emits_execute_query w sql)). Qed.

(** The events of the translator: its own mark, the events of its call of the
    introspector, then the model call and, if that fails, the log line. *)
Lemma get_generated_sql_events w q s schema :
  fst (get_db_schema w (record (Call_get_generated_sql q) s)) = Return schema ->
  events_of (get_generated_sql w q) s
  = Call_get_generated_sql q
    :: events_of (get_db_schema w) (record (Call_get_generated_sql q) s)
    ++ (if model_configured w then
          GenerateContent (build_prompt schema q)
          :: match model_generate w (build_prompt schema q) with
             | Return response =>
                 match text response with
                 | Return _ => []
                 | Raised e => [LogError (lit "Gemini API error: " ++ exn_str e)]
                 end
             | Raised e => [LogError (lit "Gemini API error: " ++ exn_str e)]
             end
        else [LogError (lit "Gemini API error: "
                        ++ lit "name 'model' is not defined")]).
Proof.
  intros Hs. apply events_of_app.
  rewrite (get_generated_sql_run w q s schema Hs).
  pose proof (trace_events_of (get_db_schema w)
                (record (Call_get_generated_sql q) s) (mono_get_db_schema w))
    as E.
  unfold translator_failed.
  destruct (model_configured w);
    [destruct (model_generate w _) as [r | e]; [destruct (text r) |] |];
    cbn [snd]; rewrite ?trace_record, E, trace_record;
    rewrite <- ?app_assoc; reflexivity.
Qed.

(* ===================================================================== *)
(** ** The queries of the introspector *)
(* ===================================================================== *)

(** With every column query answered, the loop issues one query per table,
    in order, on the cursor it was given. *)
Lemma schema_loop_reports_trace w cursor (cat : list table_record) :
  (forall name cols, In (name, cols) cat ->
     db_execute w (columns_sql name) = Return (column_rows cols)) ->
  forall acc s,
    trace (snd (for_in (table_rows cat) (schema_loop_body w cursor) acc s))
    = trace s
      ++ map (fun t => CursorExecute cursor (columns_sql (fst t))) cat.
Proof.
  induction cat as [| [name cols] rest IH]; intros Hcols acc s; simpl.
  - rewrite app_nil_r. reflexivity.
  - unfold bind. rewrite schema_loop_body_run. simpl.
    rewrite (Hcols name cols) by (left; reflexivity).
    rewrite comprehension_column_rows. simpl.
    rewrite IH by (intros n c Hin; apply Hcols; right; exact Hin).
    simpl. rewrite <- app_assoc. reflexivity.
Qed.

(** The loop stops at the first table whose column query fails: the tables
    after it are not queried. *)
Lemma schema_loop_stops w cursor (good : list table_record) name rest e :
  (forall n cols, In (n, cols) good ->
     db_execute w (columns_sql n) = Return (column_rows cols)) ->
  db_execute w (columns_sql name) = Raised e ->
  forall acc s,
    fst (for_in (table_rows good ++ [name] :: rest)
           (schema_loop_body w cursor) acc s) = Raised e
    /\ trace (snd (for_in (table_rows good ++ [name] :: rest)
                     (schema_loop_body w cursor) acc s))
       = trace s
         ++ map (fun t => CursorExecute cursor (columns_sql (fst t))) good
         ++ [CursorExecute cursor (columns_sql name)]
    /\ open_conns (snd (for_in (table_rows good ++ [name] :: rest)
                          (schema_loop_body w cursor) acc s))
       = open_conns s.
Proof.
  intros Hgood Hbad.
  induction good as [| [n cols] good' IH]; intros acc s.
  - simpl. unfold bind. rewrite schema_loop_body_run. simpl. rewrite Hbad.
    simpl. auto.
  - assert (Hgood' : forall n' c', In (n', c') good' ->
              db_execute w (columns_sql n') = Return (column_rows c'))
      by (intros n' c' Hin; apply Hgood; right; exact Hin).
    specialize (IH Hgood'
      (acc ++ [format_table n
                 (map (fun c => fst c ++ lit " (" ++ snd c ++ lit ")") cols)])
      (holding [] (record (CursorExecute cursor (columns_sql n)) s))).
    destruct IH as (Hr & Ht & Ho).
    simpl. unfold bind. rewrite schema_loop_body_run. simpl.
    rewrite (Hgood n cols) by (left; reflexivity).
    rewrite comprehension_column_rows. cbn [fst snd].
    split; [exact Hr |]. split; [| exact Ho].
    etransitivity; [exact Ht |].
    simpl. rewrite <- app_assoc. reflexivity.
Qed.

(** The schema text of a catalog with at least one table starts with the
    letter T. *)
Lemma schema_text_head (t : table_record) ts :
  exists rest, join (nl ++ nl) (map table_block (t :: ts)) = 84%N :: rest.
Proof.
  destruct ts as [| t' ts']; simpl; unfold table_block; eexists; reflexivity.
Qed.

(** X1.  When the database is reachable and its catalog reports the tables
    [cat], [get_db_schema] opens one connection and sends on it the query for
    the table names followed by one column query per table, in the order of
    the tables, and then closes it: N + 1 queries for N tables, and nothing
    else. *)
Theorem get_db_schema_queries w cat s :
  reports w cat ->
  events_of (get_db_schema w) s
  = [Call_get_db_schema; Connect (next_conn s);
     CursorExecute (next_conn s) tables_sql]
    ++ map (fun t => CursorExecute (next_conn s) (columns_sql (fst t))) cat
    ++ [Close (next_conn s)].
Proof.
  intros [Hc Ht Hcols Hcl]. apply events_of_app.
  unfold_schema. rewrite Hc, Ht. simpl.
  match goal with
  | |- context [for_in ?xs ?b ?a ?s0] =>
      pose proof (schema_loop_reports w (next_conn s) cat Hcols a s0) as Hres;
      pose proof (schema_loop_reports_trace w (next_conn s) cat Hcols a s0)
        as Htr;
      destruct (for_in xs b a s0) as [o s']
  end.
  simpl in Hres, Htr. subst o. rewrite Hcl. simpl. rewrite Htr. simpl.
  rewrite <- !app_assoc. reflexivity.
Qed.

Lemma get_db_schema_queries_witness :
  events_of (get_db_schema demo_world) initial_state
  = [Call_get_db_schema; Connect 0; CursorExecute 0 tables_sql]
    ++ map (fun t => CursorExecute 0 (columns_sql (fst t))) demo_catalog
    ++ [Close 0].
Proof.
  apply (get_db_schema_queries demo_world demo_catalog initial_state
           demo_world_reports).
Defined.

(** X2.  When the column query of one table fails, [get_db_schema] stops
    there: the tables before it were queried, the tables after it are not,
    the blocks gathered so far are dropped for the sentinel, the exception of
    that query is what the log line carries, and the connection stays open. *)
Theorem get_db_schema_stops_at_first_failure w good name rest e s :
  db_connect w = None ->
  db_execute w tables_sql = Return (table_rows good ++ [name] :: rest) ->
  (forall n cols, In (n, cols) good ->
     db_execute w (columns_sql n) = Return (column_rows cols)) ->
  db_execute w (columns_sql name) = Raised e ->
  fst (get_db_schema w s) = Return (lit "Error fetching schema")
  /\ events_of (get_db_schema w) s
     = [Call_get_db_schema; Connect (next_conn s);
        CursorExecute (next_conn s) tables_sql]
       ++ map (fun t => CursorExecute (next_conn s) (columns_sql (fst t))) good
       ++ [CursorExecute (next_conn s) (columns_sql name);
           LogError (lit "Failed to fetch database schema: " ++ exn_str e)]
  /\ open_conns (snd (get_db_schema w s)) = next_conn s :: open_conns s.
Proof.
  intros Hc Ht Hgood Hbad.
  assert (E : exists s',
             get_db_schema w s
             = (Return (lit "Error fetching schema"),
                record (LogError (lit "Failed to fetch database schema: "
                                  ++ exn_str e)) s')
             /\ trace s'
                = trace s
                  ++ [Call_get_db_schema; Connect (next_conn s);
                      CursorExecute (next_conn s) tables_sql]
                  ++ map (fun t => CursorExecute (next_conn s)
                                     (columns_sql (fst t))) good
                  ++ [CursorExecute (next_conn s) (columns_sql name)]
             /\ open_conns s' = next_conn s :: open_conns s).
  { unfold_schema. rewrite Hc, Ht. simpl.
    match goal with
    | |- context [for_in ?xs ?b ?a ?s0] =>
        pose proof (schema_loop_stops w (next_conn s) good name rest e
                      Hgood Hbad a s0) as Hloop;
        destruct (for_in xs b a s0) as [o s']
    end.
    simpl in Hloop. destruct Hloop as (Hr & Htr & Ho). subst o.
    exists s'. split; [reflexivity |]. split; [| exact Ho].
    rewrite Htr. simpl. rewrite <- !app_assoc. reflexivity. }
  destruct E as (s' & E & Htr & Ho). rewrite E. simpl.
  split; [reflexivity |]. split; [| exact Ho].
  apply events_of_app. rewrite E. simpl. rewrite Htr.
  rewrite <- !app_assoc. reflexivity.
Qed.

Lemma get_db_schema_stops_at_first_failure_witness :
  fst (get_db_schema broken_columns_world initial_state)
    = Return (lit "Error fetching schema")
  /\ filter is_cursor_execute
       (events_of (get_db_schema broken_columns_world) initial_state)
     = [CursorExecute 0 tables_sql;
        CursorExecute 0 (columns_sql (lit "customers"));
        CursorExecute 0 (columns_sql (lit "orders"))].
Proof.
  destruct (get_db_schema_stops_at_first_failure broken_columns_world
              [(lit "customers", [(lit "id", lit "integer");
                                  (lit "name", lit "text")])]
              (lit "orders") [[lit "items"]]
              (Exception (lit "permission denied for table orders"))
              initial_state)
    as (Hr & Hev & _).
  - reflexivity.
  - reflexivity.
  - intros n cols [E | []]. inversion E; subst. reflexivity.
  - reflexivity.
  - split; [exact Hr |]. rewrite Hev. reflexivity.
Defined.

(** X3.  A fetch that succeeds never returns the sentinel: for a reachable
    database whose catalog reports [cat], the text [get_db_schema] returns
    differs from [Error fetching schema], and it is empty exactly when there
    is no table. *)
Theorem get_db_schema_success_is_not_sentinel w cat s :
  reports w cat ->
  exists schema,
    fst (get_db_schema w s) = Return schema
    /\ schema <> lit "Error fetching schema"
    /\ (schema = [] <-> cat = []).
Proof.
  intros Hrep. exists (join (nl ++ nl) (map table_block cat)).
  split; [apply get_db_schema_reports; exact Hrep |].
  destruct cat as [| t ts].
  - split; [discriminate | split; reflexivity].
  - destruct (schema_text_head t ts) as (rest & ->).
    split; [| split]; discriminate.
Qed.

Lemma get_db_schema_success_is_not_sentinel_witness :
  exists schema,
    fst (get_db_schema demo_world initial_state) = Return schema
    /\ schema <> lit "Error fetching schema"
    /\ (schema = [] <-> demo_catalog = []).
Proof.
  apply (get_db_schema_success_is_not_sentinel demo_world demo_catalog
           initial_state demo_world_reports).
Defined.

(* ===================================================================== *)
(** ** What each pipeline function touches *)
(* ===================================================================== *)

(** X4.  [execute_query] hands the statement to the database unchanged and
    exactly once, on the connection it has just opened; when the connection
    cannot be made the statement is not sent at all.  It sends no catalog
    query, calls no model and draws nothing. *)
Theorem execute_query_sends_statement_once w sql s :
  filter is_read_sql_query (events_of (execute_query w sql) s)
    = match db_connect w with
      | None => [ReadSqlQuery (next_conn s) sql]
      | Some _ => []
      end
  /\ filter is_cursor_execute (events_of (execute_query w sql) s) = []
  /\ filter is_generate_content (events_of (execute_query w sql) s) = []
  /\ filter is_st (events_of (execute_query w sql) s) = [].
Proof.
  rewrite execute_query_events.
  destruct (db_connect w); [repeat split; reflexivity |].
  destruct (db_read_sql w sql); [| repeat split; reflexivity].
  destruct (db_close w); repeat split; reflexivity.
Qed.

(** X5.  [get_db_schema] only talks to the catalog, and [get_generated_sql]
    only to the catalog and the model: neither executes a statement through
    [pd.read_sql_query], calls [execute_query] or draws anything, and the
    introspector calls no model. *)
Theorem translation_executes_nothing w q s :
  (filter is_read_sql_query (events_of (get_db_schema w) s) = []
   /\ filter is_call_execute_query (events_of (get_db_schema w) s) = []
   /\ filter is_st (events_of (get_db_schema w) s) = []
   /\ filter is_generate_content (events_of (get_db_schema w) s) = [])
  /\
  (filter is_read_sql_query (events_of (get_generated_sql w q) s) = []
   /\ filter is_call_execute_query (events_of (get_generated_sql w q) s) = []
   /\ filter is_st (events_of (get_generated_sql w q) s) = []).
Proof.
  pose proof (emits_events_of _ _ s (emits_get_db_schema w)) as Hs.
  pose proof (emits_events_of _ _ s (emits_get_generated_sql w q)) as Ht.
  split; repeat split.
  all: first
    [ apply (filter_none _ schema_event); [| exact Hs]
    | apply (filter_none _ translator_event); [| exact Ht] ].
  all: intros e He; destruct e; try reflexivity; discriminate He.
Qed.

(* ===================================================================== *)
(** ** The translator *)
(* ===================================================================== *)

(** X6.  The text [get_generated_sql] returns is a function of the question
    and of what the database and the model answer: two calls with the same
    question, against the same database state and the same model, return
    the same text, whatever earlier calls left behind. *)
Theorem get_generated_sql_stateless w1 w2 q s1 s2 :
  same_database w1 w2 -> same_model w1 w2 ->
  fst (get_generated_sql w1 q s1) = fst (get_generated_sql w2 q s2).
Proof.
  intros Hdb [Hconf Hgen].
  destruct (get_db_schema_returns w1 (record (Call_get_generated_sql q) s1))
    as (schema & H1).
  pose proof H1 as H2.
  rewrite (get_db_schema_same w1 w2 _ (record (Call_get_generated_sql q) s2)
             Hdb) in H2.
  rewrite (get_generated_sql_run w1 q s1 schema H1).
  rewrite (get_generated_sql_run w2 q s2 schema H2).
  rewrite Hconf, Hgen. unfold translator_failed.
  destruct (model_configured w2); [| reflexivity].
  destruct (model_generate w2 (build_prompt schema q)) as [r | e];
    [destruct (text r) |]; reflexivity.
Qed.

Lemma get_generated_sql_stateless_witness :
  fst (get_generated_sql demo_world (lit "List all customers") initial_state)
  = fst (get_generated_sql demo_world (lit "List all customers")
           (snd (main bad_sql_world initial_state))).
Proof.
  apply (get_generated_sql_stateless demo_world demo_world).
  - constructor; reflexivity.
  - constructor; reflexivity.
Defined.

(** X7.  When the module-level configuration of the model failed, every
    translation fails in the same way, whatever the question: the schema is
    still fetched, nothing is sent to the provider, and the result is the
    error string built from the [NameError]. *)
Theorem get_generated_sql_unconfigured w q s :
  model_configured w = false ->
  fst (get_generated_sql w q s)
    = Return (lit "Error generating SQL: name 'model' is not defined")
  /\ In Call_get_db_schema (events_of (get_generated_sql w q) s)
  /\ filter is_generate_content (events_of (get_generated_sql w q) s) = [].
Proof.
  intros Hc.
  destruct (get_db_schema_returns w (record (Call_get_generated_sql q) s))
    as (schema & Hs).
  split; [| split].
  - rewrite (get_generated_sql_run w q s schema Hs), Hc. reflexivity.
  - rewrite (get_generated_sql_events w q s schema Hs).
    destruct (get_db_schema_call_then_db w (record (Call_get_generated_sql q) s))
      as (t & -> & _).
    right. left. reflexivity.
  - rewrite (get_generated_sql_events w q s schema Hs), Hc.
    simpl. rewrite filter_app. simpl. rewrite app_nil_r.
    apply (filter_none _ schema_event).
    + intros e He. destruct e; try reflexivity; discriminate He.
    + apply emits_events_of. apply emits_get_db_schema.
Qed.

Lemma get_generated_sql_unconfigured_witness :
  fst (get_generated_sql (with_unbound_model demo_world)
         (lit "List all customers") initial_state)
    = Return (lit "Error generating SQL: name 'model' is not defined")
  /\ filter is_generate_content
       (events_of (get_generated_sql (with_unbound_model demo_world)
                     (lit "List all customers")) initial_state)
     = [].
Proof.
  destruct (get_generated_sql_unconfigured (with_unbound_model demo_world)
              (lit "List all customers") initial_state eq_refl)
    as (Hr & _ & Hg).
  split; [exact Hr | exact Hg].
Defined.

(* ===================================================================== *)
(** ** The orchestration step, statement by statement *)
(* ===================================================================== *)

Lemma startswith_iff (s p : str) :
  startswith s p = true <-> exists rest, s = p ++ rest.
Proof.
  revert s. induction p as [| a p' IH]; intros s.
  - split; [intros _; exists s; reflexivity |].
    intros _. destruct s; reflexivity.
  - destruct s as [| b s']; simpl.
    + split; [discriminate | intros (rest & E); discriminate E].
    + rewrite andb_true_iff, N.eqb_eq, IH. split.
      * intros (-> & rest & ->). exists rest. reflexivity.
      * intros (rest & E). inversion E; subst. eauto.
Qed.

Lemma error_prefixed_iff sql :
  startswith sql (lit "Error") = true <-> error_prefixed sql.
Proof. apply startswith_iff. Qed.

Lemma not_error_prefixed sql :
  ~ error_prefixed sql -> startswith sql (lit "Error") = false.
Proof.
  intros H. destruct (startswith sql (lit "Error")) eqn:E; [| reflexivity].
  exfalso. apply H. apply error_prefixed_iff. exact E.
Qed.

Lemma events_of_bind_Return {A B} (m : M A) (k : A -> M B) s a s1 :
  m s = (Return a, s1) ->
  emits any_event m -> (forall x, emits any_event (k x)) ->
  events_of (bind m k) s = events_of m s ++ events_of (k a) s1.
Proof.
  intros E Hm Hk. rewrite (events_of_bind m k s Hm Hk), E. reflexivity.
Qed.

Ltac mono :=
  repeat first
    [ apply emits_ret
    | apply emits_display_results
    | apply mono_execute_query
    | apply mono_get_generated_sql
    | apply mono_get_db_schema
    | apply emits_emit; exact I
    | apply emits_bind
    | intros [? ?]
    | intro ].

(** The events of the step when the translation does not start with the
    error prefix: the spinner, the translator, the SQL panel if asked for,
    the second spinner, the executor, and the display of what it returned. *)
Lemma main_orchestrate_events w q show s sql :
  fst (get_generated_sql w q
         (record (St (st_spinner (lit "Generating SQL query..."))) s))
    = Return sql ->
  startswith sql (lit "Error") = false ->
  exists s2 s3 b v,
    execute_query w sql s2 = (Return (b, v), s3)
    /\ events_of (main_orchestrate w q show) s
       = St (st_spinner (lit "Generating SQL query..."))
         :: events_of (get_generated_sql w q)
              (record (St (st_spinner (lit "Generating SQL query..."))) s)
         ++ (if show then
               [St (st_expander (lit "Generated SQL Query"));
                St (st_code sql (Some (lit "sql")))]
             else [])
         ++ St (st_spinner (lit "Executing query..."))
            :: events_of (execute_query w sql) s2
         ++ events_of (display_results b v) s3.
Proof.
  intros Hr Hp. apply outcome_state in Hr.
  set (s0 := record (St (st_spinner (lit "Generating SQL query..."))) s) in *.
  set (s1 := snd (get_generated_sql w q s0)) in *.
  set (s1' := if show
              then record (St (st_code sql (Some (lit "sql"))))
                     (record (St (st_expander (lit "Generated SQL Query"))) s1)
              else s1).
  set (s2 := record (St (st_spinner (lit "Executing query..."))) s1').
  destruct (execute_query_returns w sql s2) as (b & v & Hex).
  apply outcome_state in Hex.
  exists s2, (snd (execute_query w sql s2)), b, v.
  split; [exact Hex |].
  unfold main_orchestrate, st.
  rewrite events_of_bind_emit.
  2:{ intros _. apply emits_bind; [apply mono_get_generated_sql |].
      intros x. destruct (negb (startswith x (lit "Error"))); [| mono].
      apply emits_bind; [destruct show; mono | mono]. }
  fold s0. f_equal.
  rewrite (events_of_bind_Return _ _ _ _ _ Hr).
  2:{ apply mono_get_generated_sql. }
  2:{ intros x. destruct (negb (startswith x (lit "Error"))); [| mono].
      apply emits_bind; [destruct show; mono | mono]. }
  f_equal. rewrite Hp. simpl negb. cbv iota.
  rewrite (events_of_bind_Return _ _ s1 tt s1').
  2:{ subst s1'. destruct show; reflexivity. }
  2:{ destruct show; mono. }
  2:{ mono. }
  f_equal.
  { subst s1'. destruct show.
    - rewrite events_of_bind_emit by mono. rewrite events_of_emit. reflexivity.
    - apply events_of_ret. }
  rewrite events_of_bind_emit by mono. fold s2. f_equal.
  rewrite (events_of_bind_Return _ _ _ _ _ Hex) by mono.
  reflexivity.
Qed.

(** X8.  The orchestration step executes the translator's text exactly as it
    is, exactly once, unless the text begins with [Error]: then nothing is
    executed.  Nothing else decides: a text without the prefix reaches
    [pd.read_sql_query] unchanged whenever the connection is made. *)
Theorem main_orchestrate_executes_verbatim w q show s sql :
  fst (get_generated_sql w q
         (record (St (st_spinner (lit "Generating SQL query..."))) s))
    = Return sql ->
  (error_prefixed sql ->
     filter is_call_execute_query (events_of (main_orchestrate w q show) s)
       = []
     /\ filter is_read_sql_query (events_of (main_orchestrate w q show) s)
        = [])
  /\
  (~ error_prefixed sql ->
     filter is_call_execute_query (events_of (main_orchestrate w q show) s)
       = [Call_execute_query sql]
     /\ (db_connect w = None ->
           exists conn,
             filter is_read_sql_query
               (events_of (main_orchestrate w q show) s)
             = [ReadSqlQuery conn sql])).
Proof.
  intros Hr.
  pose proof (emits_events_of _ _
                (record (St (st_spinner (lit "Generating SQL query..."))) s)
                (emits_get_generated_sql w q)) as Htr.
  assert (Hnx : filter is_call_execute_query
                  (events_of (get_generated_sql w q)
                     (record (St (st_spinner (lit "Generating SQL query...")))
                        s)) = [])
    by (apply translator_event_not_execute; exact Htr).
  assert (Hnr : filter is_read_sql_query
                  (events_of (get_generated_sql w q)
                     (record (St (st_spinner (lit "Generating SQL query...")))
                        s)) = []).
  { apply (filter_none _ translator_event); [| exact Htr].
    intros e He. destruct e; try reflexivity; discriminate He. }
  split.
  - intros Hp. apply error_prefixed_iff in Hp.
    rewrite (main_orchestrate_error_events w q show s sql Hr Hp).
    simpl. rewrite !filter_app, Hnx, Hnr. split; reflexivity.
  - intros Hp. apply not_error_prefixed in Hp.
    destruct (main_orchestrate_events w q show s sql Hr Hp)
      as (s2 & s3 & b & v & Hex & ->).
    assert (Hshow : forall f,
               (forall c, f (St c) = false) ->
               filter f (if show
                         then [St (st_expander (lit "Generated SQL Query"));
                               St (st_code sql (Some (lit "sql")))]
                         else []) = [])
      by (intros f Hf; destruct show; simpl; rewrite ?Hf; reflexivity).
    assert (Hdisp : forall f,
               (forall c, f (St c) = false) ->
               filter f (events_of (display_results b v) s3) = []).
    { intros f Hf. rewrite display_results_events.
      destruct b; [destruct (len v =? 0); [| destruct v] |]; simpl; rewrite ?Hf;
        reflexivity. }
    split.
    + simpl. rewrite !filter_app. simpl. rewrite !filter_app.
      rewrite Hnx, Hshow, Hdisp by reflexivity.
      rewrite execute_query_events. simpl.
      destruct (db_connect w); [reflexivity |].
      destruct (db_read_sql w sql); [| reflexivity].
      destruct (db_close w); reflexivity.
    + intros Hc. exists (next_conn s2).
      simpl. rewrite !filter_app. simpl. rewrite !filter_app.
      rewrite Hnr, Hshow, Hdisp by reflexivity.
      rewrite execute_query_events, Hc. simpl.
      destruct (db_read_sql w sql); [| reflexivity].
      destruct (db_close w); reflexivity.
Qed.

Lemma main_orchestrate_executes_verbatim_witness :
  filter is_call_execute_query
    (events_of (main_orchestrate demo_world (lit "List all customers") true)
       initial_state)
  = [Call_execute_query (lit "SELECT * FROM customers")].
Proof.
  destruct (main_orchestrate_executes_verbatim demo_world
              (lit "List all customers") true initial_state
              (lit "SELECT * FROM customers")) as (_ & H).
  - vm_compute. reflexivity.
  - apply H. intros Hp. apply error_prefixed_iff in Hp.
    vm_compute in Hp. discriminate Hp.
Defined.

(** X9.  The generated SQL is shown in its code panel exactly when the check
    box is ticked and the text does not begin with [Error]; and when it is
    shown, it is shown before the statement is executed, not after. *)
Theorem main_orchestrate_shows_sql_first w q show s sql :
  fst (get_generated_sql w q
         (record (St (st_spinner (lit "Generating SQL query..."))) s))
    = Return sql ->
  (error_prefixed sql ->
     filter is_st_code (events_of (main_orchestrate w q show) s) = [])
  /\
  (~ error_prefixed sql ->
     filter is_st_code (events_of (main_orchestrate w q show) s)
       = (if show then [St (st_code sql (Some (lit "sql")))] else [])
     /\ (show = true ->
           exists before after,
             events_of (main_orchestrate w q show) s
               = before ++ St (st_code sql (Some (lit "sql"))) :: after
             /\ filter is_call_execute_query before = []
             /\ filter is_call_execute_query after
                = [Call_execute_query sql])).
Proof.
  intros Hr.
  pose proof (emits_events_of _ _
                (record (St (st_spinner (lit "Generating SQL query..."))) s)
                (emits_get_generated_sql w q)) as Htr.
  assert (Hnc : filter is_st_code
                  (events_of (get_generated_sql w q)
                     (record (St (st_spinner (lit "Generating SQL query...")))
                        s)) = []).
  { apply (filter_none _ translator_event); [| exact Htr].
    intros e He. destruct e; try reflexivity; discriminate He. }
  split.
  - intros Hp. apply error_prefixed_iff in Hp.
    rewrite (main_orchestrate_error_events w q show s sql Hr Hp).
    simpl. rewrite filter_app, Hnc. reflexivity.
  - intros Hp. apply not_error_prefixed in Hp.
    destruct (main_orchestrate_events w q show s sql Hr Hp)
      as (s2 & s3 & b & v & Hex & ->).
    assert (Hx : filter is_st_code (events_of (execute_query w sql) s2) = []).
    { apply (filter_none _ executor_event).
      - intros e He. destruct e; try reflexivity; discriminate He.
      - apply emits_events_of. apply emits_execute_query. }
    assert (Hd : filter is_st_code (events_of (display_results b v) s3) = []).
    { rewrite display_results_events.
      destruct b; [destruct (len v =? 0); [| destruct v] |]; reflexivity. }
    assert (Hdx : filter is_call_execute_query
                    (events_of (display_results b v) s3) = []).
    { rewrite display_results_events.
      destruct b; [destruct (len v =? 0); [| destruct v] |]; reflexivity. }
    assert (Hxx : filter is_call_execute_query
                    (events_of (execute_query w sql) s2)
                  = [Call_execute_query sql]).
    { rewrite execute_query_events. simpl.
      destruct (db_connect w); [reflexivity |].
      destruct (db_read_sql w sql); [| reflexivity].
      destruct (db_close w); reflexivity. }
    split.
    + simpl. rewrite !filter_app. simpl. rewrite !filter_app.
      rewrite Hnc, Hx, Hd. destruct show; reflexivity.
    + intros ->.
      exists (St (st_spinner (lit "Generating SQL query..."))
              :: events_of (get_generated_sql w q)
                   (record (St (st_spinner (lit "Generating SQL query...")))
                      s)
              ++ [St (st_expander (lit "Generated SQL Query"))]).
      exists (St (st_spinner (lit "Executing query..."))
              :: events_of (execute_query w sql) s2
              ++ events_of (display_results b v) s3).
      split; [| split].
      * simpl. rewrite <- !app_assoc. reflexivity.
      * simpl. rewrite filter_app.
        rewrite (translator_event_not_execute _ Htr). reflexivity.
      * simpl. rewrite filter_app, Hxx, Hdx. reflexivity.
Qed.

Lemma main_orchestrate_shows_sql_first_witness :
  filter is_st_code
    (events_of (main_orchestrate demo_world (lit "List all customers") true)
       initial_state)
  = [St (st_code (lit "SELECT * FROM customers") (Some (lit "sql")))].
Proof.
  destruct (main_orchestrate_shows_sql_first demo_world
              (lit "List all customers") true initial_state
              (lit "SELECT * FROM customers")) as (_ & H).
  - vm_compute. reflexivity.
  - apply H. intros Hp. apply error_prefixed_iff in Hp.
    vm_compute in Hp. discriminate Hp.
Defined.

(** X10.  What the user is shown for an executed statement follows from what
    the database did with it: rows give the banner with their number, the
    table and the download button for that very frame; no row gives the
    information line alone; and a database error gives one error banner with
    the executor's message, and neither table nor download. *)
Theorem main_orchestrate_displays_outcome w q show s sql :
  fst (get_generated_sql w q
         (record (St (st_spinner (lit "Generating SQL query..."))) s))
    = Return sql ->
  ~ error_prefixed sql ->
  (forall df,
      db_connect w = None -> db_read_sql w sql = Return df ->
      db_close w = None ->
      filter is_display (events_of (main_orchestrate w q show) s)
      = match df_rows df with
        | [] =>
            [St (st_info
                   (lit "Query executed successfully, but returned no results."))]
        | _ :: _ =>
            [St (st_success (lit "Query returned "
                             ++ str_of_nat (List.length (df_rows df))
                             ++ lit " results."));
             St (st_dataframe (Frame df)); St (st_download_button (Frame df))]
        end)
  /\
  (forall e,
      execution_error w sql e ->
      filter is_display (events_of (main_orchestrate w q show) s)
      = [St (st_error
               (Text (lit "Error executing query: " ++ exn_str e)))]).
Proof.
  intros Hr Hp. apply not_error_prefixed in Hp.
  destruct (main_orchestrate_events w q show s sql Hr Hp)
    as (s2 & s3 & b & v & Hex & Hev).
  assert (Hnt : filter is_display
                  (events_of (get_generated_sql w q)
                     (record (St (st_spinner (lit "Generating SQL query...")))
                        s)) = []).
  { apply (filter_none _ translator_event).
    - intros e He. destruct e; try reflexivity; discriminate He.
    - apply emits_events_of. apply emits_get_generated_sql. }
  assert (Hx : filter is_display (events_of (execute_query w sql) s2) = []).
  { apply (filter_none _ executor_event).
    - intros e He. destruct e; try reflexivity; discriminate He.
    - apply emits_events_of. apply emits_execute_query. }
  assert (Hall : filter is_display (events_of (main_orchestrate w q show) s)
                 = filter is_display (events_of (display_results b v) s3)).
  { rewrite Hev. simpl. rewrite !filter_app. simpl. rewrite !filter_app.
    rewrite Hnt, Hx. destruct show; reflexivity. }
  rewrite Hall. apply (f_equal fst) in Hex. simpl in Hex.
  split.
  - intros df Hc Hread Hcl.
    rewrite (execute_query_success w sql s2 df Hc Hread Hcl) in Hex.
    injection Hex as <- <-.
    rewrite display_results_events. simpl.
    destruct (df_rows df); reflexivity.
  - intros e Herr.
    rewrite (execute_query_error w sql s2 e Herr) in Hex.
    injection Hex as <- <-.
    rewrite display_results_events. reflexivity.
Qed.

Lemma main_orchestrate_displays_outcome_witness :
  filter is_display
    (events_of (main_orchestrate zero_rows_world (lit "List all customers")
                  true) initial_state)
    = [St (st_info
             (lit "Query executed successfully, but returned no results."))]
  /\ filter is_display
       (events_of (main_orchestrate bad_sql_world (lit "List all customers")
                     true) initial_state)
     = [St (st_error
              (Text (lit "Error executing query: syntax error at or near SELEC")))].
Proof.
  split.
  - destruct (main_orchestrate_displays_outcome zero_rows_world
                (lit "List all customers") true initial_state
                (lit "SELECT * FROM customers WHERE id < 0")) as (H & _).
    + vm_compute. reflexivity.
    + intros Hp. apply error_prefixed_iff in Hp.
      vm_compute in Hp. discriminate Hp.
    + apply (H empty_frame); reflexivity.
  - destruct (main_orchestrate_displays_outcome bad_sql_world
                (lit "List all customers") true initial_state
                (lit "SELEC 1")) as (_ & H).
    + vm_compute. reflexivity.
    + intros Hp. apply error_prefixed_iff in Hp.
      vm_compute in Hp. discriminate Hp.
    + apply (H syntax_error). apply exec_statement_error; reflexivity.
Defined.

(* ===================================================================== *)
(** ** An answer made of whitespace *)
(* ===================================================================== *)

Lemma lstrip_whitespace (s : str) : whitespace s -> lstrip s = [].
Proof.
  induction 1 as [| c s' Hc _ IH]; [reflexivity |].
  simpl. rewrite Hc. exact IH.
Qed.

Lemma strip_whitespace (t : str) : whitespace t -> strip t = [].
Proof.
  intros H. unfold strip, rstrip.
  rewrite (lstrip_whitespace (rev t)) by (apply Forall_rev; exact H).
  reflexivity.
Qed.

Lemma main_orchestrate_one_call w q show s sql :
  fst (get_generated_sql w q
         (record (St (st_spinner (lit "Generating SQL query..."))) s))
    = Return sql ->
  startswith sql (lit "Error") = false ->
  filter is_call_execute_query (events_of (main_orchestrate w q show) s)
  = [Call_execute_query sql].
Proof.
  intros Hr Hp.
  destruct (main_orchestrate_events w q show s sql Hr Hp)
    as (s2 & s3 & b & v & Hex & ->).
  simpl. rewrite !filter_app. simpl. rewrite !filter_app.
  rewrite translator_event_not_execute
    by (apply emits_events_of; apply emits_get_generated_sql).
  rewrite display_results_events, execute_query_events.
  assert (Hshow : filter is_call_execute_query
                    (if show
                     then [St (st_expander (lit "Generated SQL Query"));
                           St (st_code sql (Some (lit "sql")))]
                     else []) = [])
    by (destruct show; reflexivity).
  rewrite Hshow.
  assert (Hd : filter is_call_execute_query
                 (if b
                  then if len v =? 0
                       then [St (st_info
                                   (lit "Query executed successfully, but returned no results."))]
                       else St (st_success (lit "Query returned "
                                            ++ str_of_nat (len v)
                                            ++ lit " results."))
                            :: St (st_dataframe v)
                            :: match v with
                               | Frame _ => [St (st_download_button v)]
                               | Text _ => []
                               end
                  else [St (st_error v)]) = [])
    by (destruct b; [destruct (len v =? 0); [| destruct v] |]; reflexivity).
  rewrite Hd. simpl.
  destruct (db_connect w); [reflexivity |].
  destruct (db_read_sql w sql); [| reflexivity].
  destruct (db_close w); reflexivity.
Qed.

(** X11.  When the model answers with nothing but whitespace, the translator
    returns the empty string; it does not begin with [Error], so the
    orchestration step hands the empty statement to the executor. *)
Theorem blank_answer_is_executed w q show s schema t :
  fst (get_db_schema w
         (record (Call_get_generated_sql q)
            (record (St (st_spinner (lit "Generating SQL query..."))) s)))
    = Return schema ->
  model_answers w (build_prompt schema q) t ->
  whitespace t ->
  fst (get_generated_sql w q
         (record (St (st_spinner (lit "Generating SQL query..."))) s))
    = Return []
  /\ filter is_call_execute_query (events_of (main_orchestrate w q show) s)
     = [Call_execute_query []].
Proof.
  intros Hs Hans Hws.
  assert (Hr : fst (get_generated_sql w q
                      (record (St (st_spinner (lit "Generating SQL query...")))
                         s)) = Return []).
  { rewrite (get_generated_sql_answer w q _ schema t Hs Hans).
    simpl. rewrite (strip_whitespace t Hws). reflexivity. }
  split; [exact Hr |].
  apply (main_orchestrate_one_call w q show s [] Hr). reflexivity.
Qed.

Lemma blank_answer_is_executed_witness :
  filter is_call_execute_query
    (events_of (main_orchestrate blank_answer_world (lit "List all customers")
                  true) initial_state)
  = [Call_execute_query []].
Proof.
  apply (blank_answer_is_executed blank_answer_world
           (lit "List all customers") true initial_state
           (join (nl ++ nl) (map table_block demo_catalog))
           ([32%N; 9%N] ++ nl)).
  - vm_compute. reflexivity.
  - split; [reflexivity |]. eexists. split; reflexivity.
  - repeat constructor.
Defined.

(* ===================================================================== *)
(** ** The sidebar *)
(* ===================================================================== *)

(** The events of the sidebar: its headings, the connection probe with its
    banner, and, if the probe went through, the introspector and the panel
    with what it returned. *)
Lemma main_sidebar_events w s :
  exists intro sX schema,
    Forall sidebar_intro_ok intro
    /\ fst (get_db_schema w sX) = Return schema
    /\ events_of (main_sidebar w) s
       = intro
         ++ match db_connect w with
            | Some e =>
                [ConnectFailed;
                 St (st_error (Text ([0x274C%N]
                                     ++ lit " Database connection failed: "
                                     ++ exn_str e)))]
            | None =>
                Connect (next_conn s)
                :: St (st_success ([0x2705%N] ++ lit " Connected to database"))
                :: match db_close w with
                   | Some e =>
                       [St (st_error (Text ([0x274C%N]
                                            ++ lit " Database connection failed: "
                                            ++ exn_str e)))]
                   | None =>
                       Close (next_conn s)
                       :: events_of (get_db_schema w) sX
                       ++ [St (st_expander (lit "View Database Schema"));
                           St (st_code schema None)]
                   end
            end.
Proof.
  unfold main_sidebar, st.
  match goal with
  | |- context [bind (emit ?h1) (fun _ => bind (emit ?md)
                  (fun _ => bind (emit ?h2) _))] =>
      set (s3 := record h2 (record md (record h1 s)));
      set (sX := closed (next_conn s)
                   (record (Close (next_conn s))
                      (record (St (st_success ([0x2705%N]
                                    ++ lit " Connected to database")))
                         (opened (next_conn s)
                            (record (Connect (next_conn s)) s3)))));
      exists [h1; md; h2], sX
  end.
  destruct (get_db_schema_returns w sX) as (schema & Hs).
  exists schema. split; [repeat constructor |]. split; [exact Hs |].
  apply outcome_state in Hs.
  apply events_of_app.
  unfold bind, try_except, emit, psycopg2_connect, conn_close.
  cbv beta iota zeta.
  destruct (db_connect w) as [e |]; cbv beta iota zeta.
  - cbn [snd]. rewrite !trace_record, <- !app_assoc. reflexivity.
  - destruct (db_close w) as [e |]; cbv beta iota zeta.
    + cbn [snd]. rewrite !trace_record. cbn [trace opened].
      rewrite !trace_record, <- !app_assoc. reflexivity.
    + match goal with
      | |- context [get_db_schema w ?x] => change x with sX
      end.
      rewrite Hs. cbv beta iota zeta. cbn [snd].
      rewrite !trace_record.
      rewrite (trace_events_of _ sX (mono_get_db_schema w)).
      subst sX. cbn [trace closed]. rewrite !trace_record.
      cbn [trace opened]. rewrite trace_record. subst s3.
      rewrite !trace_record, <- !app_assoc. reflexivity.
Qed.

Lemma sidebar_intro_filter (f : event -> bool) intro :
  (forall e, sidebar_intro_ok e -> f e = false) ->
  Forall sidebar_intro_ok intro -> filter f intro = [].
Proof. intros Hf. apply filter_none. exact Hf. Qed.

(** X12.  The sidebar never raises: it returns, whatever the probe meets.
    And it reports the probe as it went: a failed [connect] gives the failure
    banner alone; a made connection gives the success banner, followed by the
    failure banner if [close] then fails; and only when the probe went
    through is the schema panel drawn, with whatever [get_db_schema] returns
    in it, the sentinel included. *)
Theorem main_sidebar_reports_connection w s :
  fst (main_sidebar w s) = Return tt
  /\ filter is_display (events_of (main_sidebar w) s)
    = match db_connect w with
      | Some e =>
          [St (st_error (Text ([0x274C%N]
                               ++ lit " Database connection failed: "
                               ++ exn_str e)))]
      | None =>
          St (st_success ([0x2705%N] ++ lit " Connected to database"))
          :: match db_close w with
             | Some e =>
                 [St (st_error (Text ([0x274C%N]
                                      ++ lit " Database connection failed: "
                                      ++ exn_str e)))]
             | None => []
             end
      end
  /\ exists schema,
       (forall s', fst (get_db_schema w s') = Return schema)
       /\ (schema_fetch_error w -> schema = lit "Error fetching schema")
       /\ filter is_st_code (events_of (main_sidebar w) s)
          = if probe_ok w then [St (st_code schema None)] else [].
Proof.
  split; [destruct (returns_main_sidebar w s) as ([] & H); exact H |].
  destruct (main_sidebar_events w s) as (intro & sX & schema & Hi & Hs & ->).
  assert (Hall : forall s', fst (get_db_schema w s') = Return schema).
  { intros s'. rewrite <- Hs. apply get_db_schema_same.
    constructor; reflexivity. }
  pose proof (emits_events_of _ _ sX (emits_get_db_schema w)) as Hev.
  split.
  - rewrite filter_app.
    rewrite (sidebar_intro_filter is_display intro)
      by (try exact Hi; intros e He; apply He).
    destruct (db_connect w); [reflexivity |].
    destruct (db_close w); [reflexivity |].
    simpl. rewrite filter_app.
    rewrite (filter_none is_display schema_event); [reflexivity | | exact Hev].
    intros e He. destruct e; try reflexivity; discriminate He.
  - exists schema. split; [exact Hall |]. split.
    + intros Herr. specialize (Hall s).
      rewrite (get_db_schema_error w s Herr) in Hall. congruence.
    + rewrite filter_app.
      rewrite (sidebar_intro_filter is_st_code intro)
        by (try exact Hi; intros e He; apply He).
      unfold probe_ok.
      destruct (db_connect w); [reflexivity |].
      destruct (db_close w); [reflexivity |].
      simpl. rewrite filter_app.
      rewrite (filter_none is_st_code schema_event); [reflexivity | | exact Hev].
      intros e He. destruct e; try reflexivity; discriminate He.
Qed.

(* ===================================================================== *)
(** ** [main] as a whole *)
(* ===================================================================== *)

(** X13.  Whatever [psycopg2.connect], [cursor.execute],
    [pd.read_sql_query], [conn.close] and the model client answer or raise,
    [main] runs to its last line and returns; the Streamlit calls, and
    [to_csv] on a frame, are taken to return.  The one call that sits outside
    every [try], [results.to_csv], is reached with a frame only:
    [display_results] does raise an [AttributeError] when it is handed the
    flag with a non-empty [str], after the banner and the table were drawn,
    but [execute_query] never returns the flag without a frame. *)
Theorem main_never_raises w s :
  fst (main w s) = Return tt
  /\ (forall sql s0 v,
        fst (execute_query w sql s0) = Return (true, v) ->
        exists df, v = Frame df)
  /\ (forall t s0,
        t <> [] ->
        fst (display_results true (Text t) s0)
          = Raised (Exception (lit "'str' object has no attribute 'to_csv'"))
        /\ events_of (display_results true (Text t)) s0
           = [St (st_success (lit "Query returned "
                              ++ str_of_nat (List.length t)
                              ++ lit " results."));
              St (st_dataframe (Text t))]).
Proof.
  split; [destruct (returns_main w s) as ([] & H); exact H |].
  split.
  - intros sql s0 v H.
    destruct (execute_query_true_inv w sql s0 v H) as (df & -> & _). eauto.
  - intros t s0 Ht. split.
    + unfold display_results, results_to_csv, st, bind, emit, raise.
      destruct t as [| c t']; [contradiction |]. reflexivity.
    + rewrite display_results_events.
      destruct t as [| c t']; [contradiction |]. reflexivity.
Qed.

Lemma main_never_raises_witness :
  fst (main bad_sql_world initial_state) = Return tt
  /\ fst (display_results true (Text (lit "abc")) initial_state)
     = Raised (Exception (lit "'str' object has no attribute 'to_csv'")).
Proof.
  destruct (main_never_raises bad_sql_world initial_state) as (Hm & _ & Hd).
  split; [exact Hm |].
  apply (Hd (lit "abc") initial_state). discriminate.
Defined.

Lemma schema_event_idle e : schema_event e -> idle_event e.
Proof. unfold schema_event, idle_event. intros ->. reflexivity. Qed.

Lemma emits_main_sidebar_idle w : emits idle_event (main_sidebar w).
Proof.
  unfold main_sidebar, st.
  repeat (apply emits_bind; [apply emits_emit; reflexivity | intros _]).
  apply emits_try_except.
  - apply emits_bind.
    { apply (emits_weaken schema_event); [apply schema_event_idle |].
      apply emits_psycopg2_connect. }
    intros conn. apply emits_bind; [apply emits_emit; reflexivity | intros _].
    apply emits_bind.
    { apply (emits_weaken schema_event); [apply schema_event_idle |].
      apply emits_conn_close. }
    intros _. apply emits_bind.
    { apply (emits_weaken schema_event); [apply schema_event_idle |].
      apply emits_get_db_schema. }
    intros schema.
    apply emits_bind; [apply emits_emit; reflexivity | intros _].
    apply emits_emit. reflexivity.
  - intros e. apply emits_emit. reflexivity.
Qed.

Lemma mono_main_sidebar w : emits any_event (main_sidebar w).
Proof. apply (emits_any _ _ (emits_main_sidebar_idle w)). Qed.

Lemma mono_main_orchestrate w q show :
  emits any_event (main_orchestrate w q show).
Proof.
  unfold main_orchestrate, st.
  apply emits_bind; [apply emits_emit; exact I | intros _].
  apply emits_bind; [apply mono_get_generated_sql | intros sql].
  destruct (negb (startswith sql (lit "Error"))); [| mono].
  apply emits_bind; [destruct show; mono | mono].
Qed.

Ltac mono_main :=
  repeat first
    [ apply emits_ret
    | apply emits_emit; exact I
    | apply mono_main_sidebar
    | apply mono_main_orchestrate
    | apply emits_bind
    | match goal with
      | |- emits _ (if ?c then _ else _) => destruct c
      end
    | intro ].

(** Seen through a filter that lets no Streamlit call pass, the events of
    [main] are those of the sidebar followed, if something was submitted, by
    those of the orchestration step. *)
Lemma main_filter w s (f : event -> bool) :
  (forall c, f (St c) = false) ->
  exists sA sB,
    filter f (events_of (main w) s)
    = filter f (events_of (main_sidebar w) sA)
      ++ (if submitted w
          then filter f (events_of (main_orchestrate w (ui_query w)
                                      (ui_show_sql w)) sB)
          else []).
Proof.
  intros Hf. unfold main, st, submitted.
  rewrite !events_of_bind_emit by mono_main.
  match goal with
  | |- context [events_of (bind (main_sidebar w) ?k) ?sA] =>
      destruct (returns_main_sidebar w sA) as ([] & Hsb);
      apply outcome_state in Hsb;
      rewrite (events_of_bind_Return _ k sA _ _ Hsb) by mono_main;
      exists sA
  end.
  rewrite !events_of_bind_emit by mono_main.
  destruct (ui_execute_button w && truthy (ui_query w)).
  - match goal with
    | |- context [events_of (bind (main_orchestrate w ?q ?sh) ?k) ?sB] =>
        destruct (returns_main_orchestrate w q sh sB) as ([] & Hor);
        apply outcome_state in Hor;
        rewrite (events_of_bind_Return _ k sB _ _ Hor) by mono_main;
        exists sB
    end.
    rewrite events_of_bind_emit, events_of_emit by mono_main.
    cbn [filter]. rewrite !Hf, !filter_app. cbn [filter].
    rewrite !Hf, !filter_app. cbn [filter]. rewrite !Hf, app_nil_r.
    reflexivity.
  - exists s.
    match goal with
    | |- context [events_of (bind (ret tt) ?k) ?sB] =>
        rewrite (events_of_bind_Return (ret tt) k sB tt sB eq_refl)
          by mono_main
    end.
    rewrite events_of_ret, events_of_bind_emit, events_of_emit by mono_main.
    cbn [filter app]. rewrite !Hf, !filter_app. cbn [filter].
    rewrite !Hf, !app_nil_r. reflexivity.
Qed.

Lemma get_generated_sql_one_fetch w q s :
  filter is_call_get_db_schema (events_of (get_generated_sql w q) s)
  = [Call_get_db_schema].
Proof.
  destruct (get_db_schema_returns w (record (Call_get_generated_sql q) s))
    as (schema & Hs).
  rewrite (get_generated_sql_events w q s schema Hs).
  destruct (get_db_schema_call_then_db w (record (Call_get_generated_sql q) s))
    as (t & -> & Ht).
  cbn [filter is_call_get_db_schema]. rewrite !filter_app.
  cbn [filter is_call_get_db_schema].
  rewrite (filter_none is_call_get_db_schema db_event t); [| | exact Ht].
  - destruct (model_configured w); [| reflexivity].
    destruct (model_generate w _) as [r | e]; [destruct (text r) |];
      reflexivity.
  - intros e He. destruct e; try reflexivity; discriminate He.
Qed.

Lemma main_orchestrate_one_fetch w q show s :
  filter is_call_get_db_schema (events_of (main_orchestrate w q show) s)
  = [Call_get_db_schema].
Proof.
  destruct (get_generated_sql_returns w q
              (record (St (st_spinner (lit "Generating SQL query..."))) s))
    as (sql & Hr).
  destruct (startswith sql (lit "Error")) eqn:Hp.
  - rewrite (main_orchestrate_error_events w q show s sql Hr Hp).
    cbn [filter is_call_get_db_schema]. rewrite filter_app.
    rewrite get_generated_sql_one_fetch. reflexivity.
  - destruct (main_orchestrate_events w q show s sql Hr Hp)
      as (s2 & s3 & b & v & Hex & ->).
    cbn [filter is_call_get_db_schema]. rewrite !filter_app.
    cbn [filter is_call_get_db_schema]. rewrite !filter_app.
    rewrite get_generated_sql_one_fetch.
    rewrite (filter_none is_call_get_db_schema executor_event
               (events_of (execute_query w sql) s2)).
    + rewrite display_results_events.
      destruct show, b;
        [destruct (len v =? 0); [| destruct v] |
        | destruct (len v =? 0); [| destruct v] |];
        reflexivity.
    + intros e He. destruct e; try reflexivity; discriminate He.
    + apply emits_events_of. apply emits_execute_query.
Qed.

Lemma main_sidebar_fetches w s :
  filter is_call_get_db_schema (events_of (main_sidebar w) s)
  = if probe_ok w then [Call_get_db_schema] else [].
Proof.
  destruct (main_sidebar_events w s) as (intro & sX & schema & Hi & Hs & ->).
  rewrite filter_app.
  rewrite (sidebar_intro_filter is_call_get_db_schema intro);
    [| | exact Hi].
  2:{ intros e (He & _). destruct e; try reflexivity; discriminate He. }
  unfold probe_ok.
  destruct (db_connect w); [reflexivity |].
  destruct (db_close w); [reflexivity |].
  destruct (get_db_schema_call_then_db w sX) as (t & -> & Ht).
  cbn [filter is_call_get_db_schema app]. rewrite filter_app.
  rewrite (filter_none is_call_get_db_schema db_event t); [reflexivity | | exact Ht].
  intros e He. destruct e; try reflexivity; discriminate He.
Qed.

(** X15.  One run of [main] calls [get_db_schema] once for the sidebar,
    provided the connection probe went through, and once more inside the
    translator if something was submitted: twice on a page load with a
    question and a reachable database, and never more. *)
Theorem main_fetches_schema w s :
  count is_call_get_db_schema (events_of (main w) s)
  = (if probe_ok w then 1 else 0) + (if submitted w then 1 else 0).
Proof.
  unfold count.
  destruct (main_filter w s is_call_get_db_schema) as (sA & sB & ->);
    [reflexivity |].
  rewrite length_app, main_sidebar_fetches.
  f_equal; [destruct (probe_ok w); reflexivity |].
  destruct (submitted w); [| reflexivity].
  rewrite main_orchestrate_one_fetch. reflexivity.
Qed.

(* ===================================================================== *)
(** ** Connections over a whole run *)
(* ===================================================================== *)

Lemma conns_fresh_le s s' :
  conns_fresh s -> open_conns s' = open_conns s ->
  next_conn s <= next_conn s' -> conns_fresh s'.
Proof.
  unfold conns_fresh. intros H -> Hle.
  eapply Forall_impl; [| exact H]. intros c Hc. simpl in Hc. lia.
Qed.

Lemma conns_fresh_notin s : conns_fresh s -> ~ In (next_conn s) (open_conns s).
Proof.
  unfold conns_fresh. rewrite Forall_forall. intros H Hin.
  apply H in Hin. lia.
Qed.

Lemma balanced_ret {A} (a : A) : balanced (ret a).
Proof. intros s _. simpl. auto. Qed.

Lemma balanced_raise {A} (e : exn) : balanced (@raise A e).
Proof. intros s _. simpl. auto. Qed.

Lemma balanced_emit ev : balanced (emit ev).
Proof. intros s _. simpl. auto. Qed.

(** The continuation need only be balanced for the values the first call
    can return. *)
Lemma balanced_bind {A B} (m : M A) (k : A -> M B) :
  balanced m ->
  (forall a s0, fst (m s0) = Return a -> balanced (k a)) ->
  balanced (bind m k).
Proof.
  intros Hm Hk s Hs. unfold bind.
  destruct (Hm s Hs) as (Ho & Hn).
  destruct (m s) as [[a | e] s1] eqn:Em; simpl in Ho, Hn |- *; [| auto].
  assert (Hs1 : conns_fresh s1) by (eapply conns_fresh_le; eauto).
  assert (Hka : balanced (k a)) by (apply (Hk a s); rewrite Em; reflexivity).
  destruct (Hka s1 Hs1) as (Ho' & Hn').
  split; [congruence | lia].
Qed.

Lemma balanced_try_except {A} (m : M A) (h : exn -> M A) :
  balanced m -> (forall e, balanced (h e)) -> balanced (try_except m h).
Proof.
  intros Hm Hh s Hs. unfold try_except.
  destruct (Hm s Hs) as (Ho & Hn).
  destruct (m s) as [[a | e] s1]; simpl in Ho, Hn |- *; [auto |].
  assert (Hs1 : conns_fresh s1) by (eapply conns_fresh_le; eauto).
  destruct (Hh e s1 Hs1) as (Ho' & Hn').
  split; [congruence | lia].
Qed.

(** A connection made, used by a balanced computation and closed is a
    balanced computation. *)
Lemma balanced_connect_close {A} w (k : nat -> M A) :
  db_connect w = None ->
  (forall conn s, conns_fresh s ->
     open_conns (snd (k conn s)) = remove Nat.eq_dec conn (open_conns s)
     /\ next_conn s <= next_conn (snd (k conn s))) ->
  balanced (bind (psycopg2_connect w) k).
Proof.
  intros Hc Hk s Hs. unfold bind, psycopg2_connect. rewrite Hc.
  assert (Hs' : conns_fresh (opened (next_conn s)
                               (record (Connect (next_conn s)) s))).
  { unfold conns_fresh in *. simpl. constructor; [lia |].
    eapply Forall_impl; [| exact Hs]. intros c Hlt. simpl in Hlt. lia. }
  destruct (Hk (next_conn s) _ Hs') as (Ho & Hn).
  rewrite Ho. simpl in Hn |- *.
  destruct (Nat.eq_dec (next_conn s) (next_conn s)); [| congruence].
  split; [| lia]. apply notin_remove. apply conns_fresh_notin. exact Hs.
Qed.

Lemma balanced_get_db_schema w cat :
  reports w cat -> balanced (get_db_schema w).
Proof.
  intros [Hc Ht Hcols Hcl] s Hs. unfold_schema. rewrite Hc, Ht. simpl.
  match goal with
  | |- context [for_in ?xs ?b ?a ?s0] =>
      pose proof (schema_loop_reports w (next_conn s) cat Hcols a s0) as Hloop;
      pose proof (schema_loop_conns w (next_conn s) xs a s0) as Hconns;
      destruct (for_in xs b a s0) as [o s']
  end.
  simpl in Hloop, Hconns. subst o. rewrite Hcl. simpl.
  destruct Hconns as (Ho & Hn). rewrite Ho, Hn. simpl.
  destruct (Nat.eq_dec (next_conn s) (next_conn s)); [| congruence].
  split; [| lia]. apply notin_remove. apply conns_fresh_notin. exact Hs.
Qed.

Lemma balanced_execute_query w sql df :
  db_connect w = None -> db_read_sql w sql = Return df -> db_close w = None ->
  balanced (execute_query w sql).
Proof.
  intros Hc Hr Hcl s Hs. unfold_calls. rewrite Hc, Hr. simpl. rewrite Hcl.
  simpl.
  destruct (Nat.eq_dec (next_conn s) (next_conn s)); [| congruence].
  split; [| lia]. apply notin_remove. apply conns_fresh_notin. exact Hs.
Qed.

Lemma balanced_get_generated_sql w cat q :
  reports w cat -> balanced (get_generated_sql w q).
Proof.
  intros Hrep. unfold get_generated_sql, model_generate_content,
    response_text, logger_error.
  apply balanced_bind; [apply balanced_emit | intros _ _ _].
  apply balanced_try_except.
  - apply balanced_bind; [apply (balanced_get_db_schema w cat Hrep) |].
    intros schema _ _. apply balanced_bind.
    + destruct (model_configured w); [| apply balanced_raise].
      apply balanced_bind; [apply balanced_emit | intros _ _ _].
      destruct (model_generate w _); [apply balanced_ret | apply balanced_raise].
    + intros r _ _. apply balanced_bind; [| intros t _ _; apply balanced_ret].
      destruct (text r); [apply balanced_ret | apply balanced_raise].
  - intros e. apply balanced_bind; [apply balanced_emit |].
    intros _ _ _. apply balanced_ret.
Qed.

Lemma balanced_display_results success results :
  balanced (display_results success results).
Proof.
  unfold display_results, results_to_csv, st.
  destruct success; [destruct (len results =? 0); [| destruct results] |];
    repeat first [apply balanced_emit | apply balanced_ret
                 | apply balanced_raise
                 | apply balanced_bind; [| intros ? _ _]].
Qed.

Lemma balanced_main_sidebar w cat :
  reports w cat -> balanced (main_sidebar w).
Proof.
  intros Hrep. pose proof (reports_connect _ _ Hrep) as Hc.
  pose proof (reports_close _ _ Hrep) as Hcl.
  unfold main_sidebar, st.
  repeat (apply balanced_bind; [apply balanced_emit | intros _ _ _]).
  apply balanced_try_except; [| intros e; apply balanced_emit].
  apply (balanced_connect_close w); [exact Hc |].
  intros conn s Hs. unfold bind at 1. unfold emit at 1.
  unfold bind at 1. unfold conn_close. rewrite Hcl.
  match goal with
  | |- context [bind (get_db_schema w) ?k ?s1] =>
      assert (Hrest : balanced (bind (get_db_schema w) k));
      [| assert (Hs1 : conns_fresh s1)]
  end.
  - apply balanced_bind; [apply (balanced_get_db_schema w cat Hrep) |].
    intros schema _ _.
    apply balanced_bind; [apply balanced_emit | intros _ _ _].
    apply balanced_emit.
  - unfold conns_fresh in *. simpl.
    eapply incl_Forall; [| exact Hs]. intros c Hin.
    apply in_remove in Hin. apply Hin.
  - destruct (Hrest _ Hs1) as (Ho & Hn). rewrite Ho. simpl in Hn |- *.
    split; [reflexivity | exact Hn].
Qed.

Lemma balanced_main_orchestrate w cat q show :
  reports w cat -> accepted w q -> balanced (main_orchestrate w q show).
Proof.
  intros Hrep Hacc. unfold main_orchestrate, st.
  apply balanced_bind; [apply balanced_emit | intros _ _ _].
  apply balanced_bind; [apply (balanced_get_generated_sql w cat q Hrep) |].
  intros sql s0 Hsql.
  destruct (startswith sql (lit "Error")) eqn:Hp; simpl;
    [apply balanced_emit |].
  destruct (Hacc s0 sql Hsql Hp) as (df & Hdf).
  apply balanced_bind.
  { destruct show; [| apply balanced_ret].
    apply balanced_bind; [apply balanced_emit | intros _ _ _].
    apply balanced_emit. }
  intros _ _ _. apply balanced_bind; [apply balanced_emit | intros _ _ _].
  apply balanced_bind.
  - apply (balanced_execute_query w sql df);
      [apply (reports_connect _ _ Hrep) | exact Hdf
      | apply (reports_close _ _ Hrep)].
  - intros [b v] _ _. apply balanced_display_results.
Qed.

(** X16.  When the database is reachable, answers the catalog queries and
    accepts the statement the translator produces, a run of [main] closes
    every connection it opens (the probe of the sidebar, the two of the
    introspector, the one of the executor): it ends with exactly the
    connections open that were open when it started. *)
Theorem main_closes_its_connections w cat s :
  reports w cat -> accepted w (ui_query w) -> conns_fresh s ->
  open_conns (snd (main w s)) = open_conns s.
Proof.
  intros Hrep Hacc Hs.
  assert (Hb : balanced (main w)).
  { unfold main, st.
    repeat (apply balanced_bind; [apply balanced_emit | intros _ _ _]).
    apply balanced_bind; [apply (balanced_main_sidebar w cat Hrep) |].
    intros _ _ _.
    repeat (apply balanced_bind; [apply balanced_emit | intros _ _ _]).
    apply balanced_bind.
    { destruct (ui_execute_button w && truthy (ui_query w));
        [apply (balanced_main_orchestrate w cat); assumption
        | apply balanced_ret]. }
    intros _ _ _. apply balanced_bind; [apply balanced_emit | intros _ _ _].
    apply balanced_emit. }
  apply (Hb s Hs).
Qed.

Lemma demo_world_accepted : accepted demo_world (lit "List all customers").
Proof.
  intros s sql Hsql _.
  destruct (get_db_schema_returns demo_world
              (record (Call_get_generated_sql (lit "List all customers")) s))
    as (schema & Hs).
  rewrite (get_generated_sql_answer demo_world (lit "List all customers") s
             schema (lit "  SELECT * FROM customers" ++ nl) Hs) in Hsql.
  - simpl in Hsql. injection Hsql as <-. exists demo_frame. reflexivity.
  - split; [reflexivity |]. eexists. split; reflexivity.
Defined.

Lemma main_closes_its_connections_witness :
  open_conns (snd (main demo_world initial_state)) = [].
Proof.
  apply (main_closes_its_connections demo_world demo_catalog initial_state).
  - exact demo_world_reports.
  - exact demo_world_accepted.
  - constructor.
Defined.

(* ===================================================================== *)
(** ** Returned value, log line and connection, together *)
(* ===================================================================== *)

(** X17.  What [execute_query] returns tells what it did: [(True, frame)]
    exactly when the statement gave that frame, nothing was logged and the
    connection was closed; [(False, text)] exactly when [connect], the
    statement or [close] raised, one line was logged, [Database error:] and
    that exception, and the connection was not closed ([close] was not
    reached, or it was the call that raised). *)
Theorem execute_query_outcome_is_faithful w sql s :
  (exists df,
      db_connect w = None /\ db_read_sql w sql = Return df
      /\ db_close w = None
      /\ fst (execute_query w sql s) = Return (true, Frame df)
      /\ filter is_log_error (events_of (execute_query w sql) s) = []
      /\ filter is_close (events_of (execute_query w sql) s)
         = [Close (next_conn s)])
  \/
  (exists e,
      execution_error w sql e
      /\ fst (execute_query w sql s)
        = Return (false, Text (lit "Error executing query: " ++ exn_str e))
      /\ filter is_log_error (events_of (execute_query w sql) s)
         = [LogError (lit "Database error: " ++ exn_str e)]
      /\ filter is_close (events_of (execute_query w sql) s) = []).
Proof.
  rewrite execute_query_events.
  destruct (db_connect w) as [e |] eqn:Hc.
  - assert (Herr : execution_error w sql e)
      by (apply exec_connect_error; exact Hc).
    right. exists e. split; [exact Herr |].
    split; [apply execute_query_error; exact Herr | split; reflexivity].
  - destruct (db_read_sql w sql) as [df | e] eqn:Hr.
    + destruct (db_close w) as [e |] eqn:Hcl.
      * assert (Herr : execution_error w sql e)
          by (eapply exec_close_error; eauto).
        right. exists e. split; [exact Herr |].
        split; [apply execute_query_error; exact Herr | split; reflexivity].
      * left. exists df. repeat split; try reflexivity.
        apply execute_query_success; assumption.
    + assert (Herr : execution_error w sql e)
        by (apply exec_statement_error; assumption).
      right. exists e. split; [exact Herr |].
      split; [apply execute_query_error; exact Herr | split; reflexivity].
Qed.

(** The loop only adds blocks that start with [Table: ], and only issues
    cursor queries. *)
Lemma schema_loop_blocks w cursor tables :
  forall acc s blocks s',
    Forall table_headed acc ->
    for_in tables (schema_loop_body w cursor) acc s = (Return blocks, s') ->
    Forall table_headed blocks.
Proof.
  induction tables as [| table rest IH]; intros acc s blocks s' Hacc; simpl.
  - unfold ret. intros E. inversion E; subst. exact Hacc.
  - unfold bind. rewrite schema_loop_body_run.
    destruct (nth_error table 0) as [name |]; [| discriminate].
    simpl.
    destruct (db_execute w (columns_sql name)) as [columns | e];
      [| discriminate].
    destruct (fst (comprehension format_column columns initial_state))
      as [info | e]; [| discriminate].
    apply IH. apply Forall_app. split; [exact Hacc |].
    constructor; [| constructor].
    unfold table_headed, format_table. eexists. reflexivity.
Qed.

Lemma emits_schema_loop w cursor tables acc :
  emits (fun e => is_cursor_execute e = true)
    (for_in tables (schema_loop_body w cursor) acc).
Proof.
  apply emits_for_in. intros table a. unfold schema_loop_body, format_column.
  apply emits_bind; [apply emits_getitem | intros name].
  apply emits_bind.
  { intros s0. unfold cursor_execute.
    destruct (db_execute w _); simpl; eexists [_]; split; try reflexivity;
      repeat constructor. }
  intros _. apply emits_bind.
  { intros s0. exists []. simpl. rewrite app_nil_r. auto. }
  intros columns.
  apply emits_bind; [| intros info; apply emits_ret].
  apply emits_comprehension. intros col.
  apply emits_bind; [apply emits_getitem | intros c0].
  apply emits_bind; [apply emits_getitem | intros c1].
  apply emits_ret.
Qed.

Lemma cursor_events_only tl :
  Forall (fun e => is_cursor_execute e = true) tl ->
  filter is_log_error tl = [] /\ filter is_close tl = [].
Proof.
  intros H.
  split; apply (filter_none _ (fun e => is_cursor_execute e = true));
    try exact H; intros e He; destruct e; try reflexivity; discriminate He.
Qed.

Lemma join_table_headed blocks :
  Forall table_headed blocks ->
  join (nl ++ nl) blocks <> lit "Error fetching schema".
Proof.
  intros H. destruct H as [| b bs (rest & ->) _]; [discriminate |].
  destruct bs; simpl; discriminate.
Qed.

(** X18.  What [get_db_schema] returns tells what it did.  Either it returns
    the sentinel, and then it caught an exception, logged it in one line and
    issued no [close]; or it returns another text, and then it logged
    nothing and closed the connection it opened.  A text built from the
    catalog is never mistaken for the sentinel. *)
Theorem get_db_schema_outcome_is_faithful w s :
  (fst (get_db_schema w s) = Return (lit "Error fetching schema")
   /\ (exists e,
         filter is_log_error (events_of (get_db_schema w) s)
         = [LogError (lit "Failed to fetch database schema: " ++ exn_str e)])
   /\ filter is_close (events_of (get_db_schema w) s) = [])
  \/
  (exists schema,
     fst (get_db_schema w s) = Return schema
     /\ schema <> lit "Error fetching schema"
     /\ filter is_log_error (events_of (get_db_schema w) s) = []
     /\ filter is_close (events_of (get_db_schema w) s)
        = [Close (next_conn s)]).
Proof.
  assert (H :
    (exists e s1 t,
        get_db_schema w s
        = (Return (lit "Error fetching schema"),
           record (LogError (lit "Failed to fetch database schema: "
                             ++ exn_str e)) s1)
        /\ trace s1 = trace s ++ t
        /\ filter is_log_error t = [] /\ filter is_close t = [])
    \/
    (exists blocks s1 t,
        get_db_schema w s
        = (Return (join (nl ++ nl) blocks),
           closed (next_conn s) (record (Close (next_conn s)) s1))
        /\ Forall table_headed blocks
        /\ trace s1 = trace s ++ t
        /\ filter is_log_error t = [] /\ filter is_close t = [])).
  { unfold_schema.
    destruct (db_connect w) as [e |].
    - left. exists e. eexists. exists [Call_get_db_schema; ConnectFailed].
      split; [reflexivity |]. split; [| split; reflexivity].
      simpl. rewrite <- !app_assoc. reflexivity.
    - destruct (db_execute w tables_sql) as [tables | e].
      + cbv beta iota zeta.
        match goal with
        | |- context [for_in ?xs (schema_loop_body w ?c) ?a ?s0] =>
            pose proof (schema_loop_blocks w c xs a s0) as Hbl;
            destruct (emits_schema_loop w c xs a s0) as (tl & Htl & Hce);
            destruct (for_in xs (schema_loop_body w c) a s0)
              as [[blocks | e] s'] eqn:Eloop
        end.
        * specialize (Hbl blocks s' (Forall_nil _) eq_refl).
          cbn [snd fst trace holding record opened app] in Htl.
          destruct (cursor_events_only tl Hce) as (Hl & Hc).
          destruct (db_close w) as [e |].
          -- left. exists e, s'.
             exists ([Call_get_db_schema; Connect (next_conn s);
                      CursorExecute (next_conn s) tables_sql] ++ tl).
             split; [reflexivity |]. split; [| split].
             ++ rewrite Htl, <- !app_assoc. reflexivity.
             ++ exact Hl.
             ++ exact Hc.
          -- right. exists blocks, s'.
             exists ([Call_get_db_schema; Connect (next_conn s);
                      CursorExecute (next_conn s) tables_sql] ++ tl).
             split; [reflexivity |]. split; [exact Hbl |]. split; [| split].
             ++ rewrite Htl, <- !app_assoc. reflexivity.
             ++ exact Hl.
             ++ exact Hc.
        * cbn [snd fst trace holding record opened app] in Htl.
          destruct (cursor_events_only tl Hce) as (Hl & Hc).
          left. exists e, s'.
          exists ([Call_get_db_schema; Connect (next_conn s);
                   CursorExecute (next_conn s) tables_sql] ++ tl).
          split; [reflexivity |]. split; [| split].
          -- rewrite Htl, <- !app_assoc. reflexivity.
          -- exact Hl.
          -- exact Hc.
      + left. exists e. eexists.
        exists [Call_get_db_schema; Connect (next_conn s);
                CursorExecute (next_conn s) tables_sql].
        split; [reflexivity |]. split; [| split; reflexivity].
        simpl. rewrite <- !app_assoc. reflexivity. }
  destruct H as [(e & s1 & t & E & Ht & Hl & Hc)
                | (blocks & s1 & t & E & Hbl & Ht & Hl & Hc)].
  - assert (Hev : events_of (get_db_schema w) s
                  = t ++ [LogError (lit "Failed to fetch database schema: "
                                    ++ exn_str e)]).
    { apply events_of_app. rewrite E. cbn [snd]. rewrite trace_record, Ht.
      rewrite <- app_assoc. reflexivity. }
    left. split; [rewrite E; reflexivity |]. split.
    + exists e. rewrite Hev, filter_app, Hl. reflexivity.
    + rewrite Hev, filter_app, Hc. reflexivity.
  - assert (Hev : events_of (get_db_schema w) s = t ++ [Close (next_conn s)]).
    { apply events_of_app. rewrite E. cbn [snd trace closed].
      rewrite trace_record, Ht, <- app_assoc. reflexivity. }
    right. exists (join (nl ++ nl) blocks). split; [rewrite E; reflexivity |].
    split; [apply join_table_headed; exact Hbl |]. split.
    + rewrite Hev, filter_app, Hl. reflexivity.
    + rewrite Hev, filter_app, Hc. reflexivity.
Qed.

Lemma main_sidebar_reports_connection_witness :
  fst (main_sidebar denied_world initial_state) = Return tt
  /\ filter is_st_code (events_of (main_sidebar denied_world) initial_state)
     = [St (st_code (lit "Error fetching schema") None)].
Proof.
  destruct (main_sidebar_reports_connection denied_world initial_state)
    as (Hret & _ & schema & _ & Hsent & Hcode).
  split; [exact Hret |].
  rewrite Hcode. rewrite Hsent; [reflexivity |].
  apply (tables_query_error _ (Exception (lit "permission denied"))).
  reflexivity.
Defined.
(** X14.  Without a submission (the button not pressed, or pressed on an
    empty question) [main] translates nothing and executes nothing: no call
    of the translator, no request to the model, no call of the executor, no
    [pd.read_sql_query].  Streamlit calls apart, what [main] does is then
    what its sidebar does, started on the same connections: the connection
    probe and the sidebar's own schema fetch, catalog queries included. *)
Theorem main_without_submission_does_nothing w s :
  submitted w = false ->
  filter is_call_get_generated_sql (events_of (main w) s) = []
  /\ filter is_generate_content (events_of (main w) s) = []
  /\ filter is_call_execute_query (events_of (main w) s) = []
  /\ filter is_read_sql_query (events_of (main w) s) = []
  /\ exists sA,
       next_conn sA = next_conn s
       /\ open_conns sA = open_conns s
       /\ forall f : event -> bool,
            (forall c, f (St c) = false) ->
            filter f (events_of (main w) s)
            = filter f (events_of (main_sidebar w) sA).
Proof.
  intros Hsub.
  assert (Hem : emits idle_event (main w)).
  { unfold main, st.
    repeat (apply emits_bind; [apply emits_emit; reflexivity | intros _]).
    apply emits_bind; [apply emits_main_sidebar_idle | intros _].
    repeat (apply emits_bind; [apply emits_emit; reflexivity | intros _]).
    apply emits_bind.
    { unfold submitted in Hsub. rewrite Hsub. apply emits_ret. }
    intros _. apply emits_bind; [apply emits_emit; reflexivity | intros _].
    apply emits_emit. reflexivity. }
  pose proof (emits_events_of _ _ s Hem) as Hev.
  do 4 (split;
        [apply (filter_none _ idle_event); try exact Hev;
         intros e He; destruct e; try reflexivity; discriminate He |]).
  unfold main, st. unfold submitted in Hsub. rewrite Hsub.
  rewrite !events_of_bind_emit by mono_main.
  match goal with
  | |- context [events_of (bind (main_sidebar w) ?k) ?sA] =>
      destruct (returns_main_sidebar w sA) as ([] & Hsb);
      apply outcome_state in Hsb;
      exists sA; split; [reflexivity | split; [reflexivity |]];
      intros f Hf;
      rewrite (events_of_bind_Return _ k sA _ _ Hsb) by mono_main
  end.
  rewrite !events_of_bind_emit by mono_main.
  match goal with
  | |- context [events_of (bind (ret tt) ?k) ?sB] =>
      rewrite (events_of_bind_Return (ret tt) k sB tt sB eq_refl)
        by mono_main
  end.
  rewrite events_of_ret, events_of_bind_emit, events_of_emit by mono_main.
  cbn [filter app]. rewrite !Hf, !filter_app. cbn [filter].
  rewrite !Hf, !app_nil_r. reflexivity.
Qed.

Lemma main_without_submission_does_nothing_witness :
  filter is_call_get_generated_sql
    (events_of (main (with_ui demo_world [] true true)) initial_state) = []
  /\ filter is_call_execute_query
       (events_of (main (with_ui demo_world [] true true)) initial_state) = []
  /\ filter is_cursor_execute
       (events_of (main (with_ui demo_world [] true true)) initial_state)
     = [CursorExecute 1 tables_sql;
        CursorExecute 1 (columns_sql (lit "customers"))].
Proof.
  destruct (main_without_submission_does_nothing
              (with_ui demo_world [] true true) initial_state eq_refl)
    as (H1 & _ & H3 & _).
  split; [exact H1 | split; [exact H3 | reflexivity]].
Defined.
(* ===================================================================== *)
(** ** The introspector against a server that reads the spliced name *)
(* ===================================================================== *)

Lemma str_eqb_refl a : str_eqb a a = true.
Proof.
  induction a as [| x a IH]; [reflexivity |].
  cbn [str_eqb]. rewrite N.eqb_refl. exact IH.
Qed.

Lemma str_eqb_eq a b : str_eqb a b = true -> a = b.
Proof.
  revert b. induction a as [| x a IH]; intros [| y b] H;
    try reflexivity; try discriminate H.
  cbn [str_eqb] in H. apply andb_prop in H. destruct H as [Hx Hab].
  apply N.eqb_eq in Hx. subst y. rewrite (IH b Hab). reflexivity.
Qed.

Lemma strip_prefix_app p s : strip_prefix p (p ++ s) = Some s.
Proof.
  induction p as [| a p IH]; [destruct s; reflexivity |].
  cbn [strip_prefix app]. rewrite N.eqb_refl. exact IH.
Qed.

(** The statement the code builds is the server's columns query with the
    name, unchanged, between the quotes. *)
Lemma columns_sql_spliced name :
  columns_sql name
  = columns_sql_head ++ name ++ lit "'" ++ nl ++ lit "            ".
Proof. reflexivity. Qed.

Lemma columns_sql_not_tables_sql name :
  str_eqb (columns_sql name) tables_sql = false.
Proof. reflexivity. Qed.

(** A name without a quote is read back as it was spliced. *)
Lemma pg_string_constant_plain a c rest :
  quote_free a -> is_quote c = false ->
  pg_string_constant (a ++ lit "'" ++ c :: rest) = Some (a, c :: rest).
Proof.
  intros Ha Hc. induction Ha as [| x a Hx Ha IH].
  - change (lit "'" ++ c :: rest) with (39%N :: c :: rest).
    cbn [app pg_string_constant]. change (is_quote 39) with true.
    cbv iota. rewrite Hc. reflexivity.
  - cbn [app pg_string_constant]. rewrite Hx, IH. reflexivity.
Qed.

Lemma skip_ident_app b rest :
  Forall (fun c => is_ident_char c = true) b ->
  skip_ident (b ++ rest) = skip_ident rest.
Proof.
  induction 1 as [| x b Hx Hb IH]; [reflexivity |].
  cbn [app skip_ident]. rewrite Hx. exact IH.
Qed.

Lemma columns_of_plain cat name cols :
  NoDup (map fst cat) -> In (name, cols) cat -> columns_of cat name = cols.
Proof.
  unfold columns_of. induction cat as [| [n c] cat IH]; intros Hnd Hin.
  - destruct Hin.
  - cbn [map fst] in Hnd. apply NoDup_cons_iff in Hnd.
    destruct Hnd as [Hfresh Hnd]. cbn [flat_map fst snd].
    destruct Hin as [Heq | Hin].
    + injection Heq as -> ->. rewrite str_eqb_refl.
      assert (Hrest : flat_map
                        (fun t => if str_eqb (fst t) name then snd t else [])
                        cat = []).
      { clear IH Hnd. induction cat as [| [n' c'] cat IH]; [reflexivity |].
        cbn [flat_map fst snd].
        destruct (str_eqb n' name) eqn:E.
        - apply str_eqb_eq in E. subst n'. exfalso. apply Hfresh. left.
          reflexivity.
        - apply IH. intros H. apply Hfresh. right. exact H. }
      rewrite Hrest. apply app_nil_r.
    + destruct (str_eqb n name) eqn:E.
      * apply str_eqb_eq in E. subst n. exfalso. apply Hfresh.
        apply (in_map fst) in Hin. exact Hin.
      * apply IH; assumption.
Qed.

(** The columns query for a table whose name has no quote in it is answered
    with that table's columns. *)
Lemma pg_execute_plain cat reject other name cols :
  plain_catalog cat -> In (name, cols) cat ->
  pg_execute cat reject other (columns_sql name) = Return (column_rows cols).
Proof.
  intros [Hnd Hq] Hin. unfold pg_execute.
  rewrite columns_sql_not_tables_sql, columns_sql_spliced, strip_prefix_app.
  rewrite Forall_forall in Hq. pose proof (Hq _ Hin) as Hname.
  cbn [fst] in Hname.
  change (nl ++ lit "            ") with (10%N :: lit "            ").
  rewrite (pg_string_constant_plain name 10%N _ Hname eq_refl).
  change (forallb pg_space (10%N :: lit "            ")) with true.
  cbv iota. rewrite (columns_of_plain cat name cols Hnd Hin). reflexivity.
Qed.

(** The columns query for a table whose name is a quote-free text, a quote
    and a word is rejected. *)
Lemma pg_execute_quoted cat reject other a c b :
  quote_free a -> Forall (fun x => is_ident_char x = true) (c :: b) ->
  pg_execute cat reject other (columns_sql (a ++ lit "'" ++ c :: b))
  = Raised (reject (columns_sql (a ++ lit "'" ++ c :: b))).
Proof.
  intros Ha Hb. unfold pg_execute.
  rewrite columns_sql_not_tables_sql, columns_sql_spliced, strip_prefix_app.
  assert (Hc : is_ident_char c = true) by (inversion Hb; assumption).
  assert (Hcq : is_quote c = false).
  { unfold is_quote. destruct (N.eqb_spec c 39) as [-> |]; [| reflexivity].
    discriminate Hc. }
  rewrite <- !app_assoc.
  change (lit "'" ++ (c :: b) ++ lit "'" ++ nl ++ lit "            ")
    with (lit "'" ++ c :: (b ++ lit "'" ++ nl ++ lit "            ")).
  rewrite (pg_string_constant_plain a c _ Ha Hcq).
  cbn [forallb]. unfold pg_space at 1.
  assert (Hsp : ((c =? 32) || (9 <=? c) && (c <=? 13))%N = false).
  { unfold is_ident_char in Hc.
    destruct (N.eqb_spec c 32) as [-> |]; [discriminate Hc |].
    destruct (N.leb_spec 9 c); [| reflexivity].
    destruct (N.leb_spec c 13); [| reflexivity].
    exfalso.
    repeat match type of Hc with
           | context [(?x <=? ?y)%N] => destruct (N.leb_spec x y)
           | context [(?x =? ?y)%N] => destruct (N.eqb_spec x y)
           end; try discriminate Hc; lia. }
  rewrite Hsp. cbn [andb].
  unfold dangling_quote. rewrite Hc. cbn [andb].
  change (c :: b ++ lit "'" ++ nl ++ lit "            ")
    with ((c :: b) ++ lit "'" ++ nl ++ lit "            ").
  rewrite (skip_ident_app _ _ Hb). reflexivity.
Qed.

Lemma pg_world_reports cat reject other :
  plain_catalog cat -> reports (pg_world cat reject other) cat.
Proof.
  intros Hcat. split; [reflexivity | reflexivity | | reflexivity].
  intros name cols Hin. apply (pg_execute_plain _ _ _ _ _ Hcat Hin).
Qed.

Lemma join_joined_by sep blocks : joined_by sep blocks (join sep blocks).
Proof.
  induction blocks as [| x [| y rest] IH].
  - apply joined_none.
  - apply joined_one.
  - change (join sep (x :: y :: rest)) with (x ++ sep ++ join sep (y :: rest)).
    apply joined_more. exact IH.
Qed.

(** C2.  The claim holds as long as no table name has a quote in it, and
    fails when one has.  Against a server that reads the spliced name as
    PostgreSQL reads a string constant: when no name of the catalog [cat]
    has a quote in it, [get_db_schema] returns as many blocks as there are
    tables, with a blank line between each two of them; the i-th block is
    [Table: <name>\nColumns: <col> (<type>), ...] for the i-th table, with
    its columns in the order the catalog gave them.  When the catalog holds
    a table whose name is a quote-free text, a quote and a word (such as
    [o'brien]), the columns query for it is rejected and [get_db_schema]
    returns [Error fetching schema], whatever the other tables are. *)
Theorem quote_in_table_name_breaks_schema reject other s :
  (forall cat,
     plain_catalog cat ->
     exists blocks text,
       fst (get_db_schema (pg_world cat reject other) s) = Return text
       /\ joined_by (nl ++ nl) blocks text
       /\ List.length blocks = List.length cat
       /\ forall i name cols,
            nth_error cat i = Some (name, cols) ->
            nth_error blocks i
            = Some (lit "Table: " ++ name ++ nl ++ lit "Columns: "
                    ++ join (lit ", ")
                         (map (fun c => fst c ++ lit " (" ++ snd c ++ lit ")")
                            cols)))
  /\ (forall cat a c b cols,
        In (a ++ lit "'" ++ c :: b, cols) cat ->
        quote_free a ->
        Forall (fun x => is_ident_char x = true) (c :: b) ->
        fst (get_db_schema (pg_world cat reject other) s)
        = Return (lit "Error fetching schema")).
Proof.
  split.
  - intros cat Hcat.
    exists (map table_block cat), (join (nl ++ nl) (map table_block cat)).
    split; [| split; [| split]].
    + apply get_db_schema_reports. apply pg_world_reports. exact Hcat.
    + apply join_joined_by.
    + apply length_map.
    + intros i name cols Hi.
      apply (map_nth_error table_block) in Hi. exact Hi.
  - intros cat a c b cols Hin Ha Hb.
    apply get_db_schema_error.
    apply (columns_query_error _ (table_rows cat)
             [a ++ lit "'" ++ c :: b] (a ++ lit "'" ++ c :: b)
             (reject (columns_sql (a ++ lit "'" ++ c :: b)))).
    + reflexivity.
    + unfold table_rows.
      apply (in_map (fun t : table_record => [fst t])) in Hin. exact Hin.
    + reflexivity.
    + apply pg_execute_quoted; assumption.
Qed.

Lemma quote_in_table_name_breaks_schema_witness :
  plain_catalog store_catalog
  /\ fst (get_db_schema
            (pg_world store_catalog (fun _ => syntax_error)
               (fun _ => Raised syntax_error)) initial_state)
     = Return (lit "Table: customers" ++ nl
               ++ lit "Columns: id (integer), name (text)" ++ nl ++ nl
               ++ lit "Table: orders" ++ nl
               ++ lit "Columns: id (integer), total (numeric)")
  /\ fst (get_db_schema
            (pg_world quoted_catalog (fun _ => syntax_error)
               (fun _ => Raised syntax_error)) initial_state)
     = Return (lit "Error fetching schema").
Proof.
  assert (Hplain : plain_catalog store_catalog).
  { split.
    - repeat constructor; simpl; intuition discriminate.
    - repeat constructor. }
  destruct (quote_in_table_name_breaks_schema (fun _ => syntax_error)
              (fun _ => Raised syntax_error) initial_state) as [Hgood Hbad].
  split; [exact Hplain | split].
  - destruct (Hgood store_catalog Hplain)
      as (blocks & text & Hr & Hj & Hlen & Hnth).
    destruct blocks as [| b0 [| b1 [| b2 blocks]]]; try discriminate Hlen.
    pose proof (Hnth 0 _ _ eq_refl) as H0.
    pose proof (Hnth 1 _ _ eq_refl) as H1.
    injection H0 as ->. injection H1 as ->.
    inversion Hj as [| | x y rest t Hj1]; subst.
    inversion Hj1; subst.
    rewrite Hr. reflexivity.
  - apply (Hbad quoted_catalog (lit "o") 98%N (lit "rien")
             [(lit "id", lit "integer")]).
    + right. left. reflexivity.
    + repeat constructor.
    + repeat constructor.
Defined.
